(** * Shape-image generator, transfer-learning prediction and U-Net data
      pipeline: a shallow embedding and its verified properties

    The development follows the two notebooks of the repository:

    - the transfer-learning notebook: [create_image],
      [generate_image_data] and [predict_image];
    - the U-Net (PyTorch) notebook: [PlaneDataSet] with its [__init__],
      [__getitem__] and [__len__], [load_data] and [train].

    Python features are modelled as follows.

    - [random.randint]: programs that draw random integers are trees of
      draws ([Rand.rand]).  Such a tree is given two meanings: the
      expectation under the uniform law that the Python documentation
      gives to [randint(a, b)], and a run against a tape of raw entropy.
    - the file system: a set of directories and a finite map from file
      paths to contents; a path is the list of its components.
    - the console, the random source and the disk faults seen by
      [generate_image_data]: fields of a [world] threaded through a state
      and exception monad.
    - floating-point numbers (pixel intensities, losses, probabilities):
      rationals. *)

From Stdlib Require Import ZArith QArith Lia Ascii DecimalString DecimalZ
  DecimalPos.
From stdpp Require Import base gmap strings list.

Local Open Scope Z_scope.

(* ===================================================================== *)
(** * Random draws *)
(* ===================================================================== *)

Module Rand.

(** A computation that calls [randint lo hi] some number of times and
    then returns a value. *)
Inductive rand (A : Type) : Type :=
  | Ret (a : A)
  | Randint (lo hi : Z) (k : Z → rand A).
Arguments Ret {A} a.
Arguments Randint {A} lo hi k.

Fixpoint bind {A B : Type} (m : rand A) (f : A → rand B) : rand B :=
  match m with
  | Ret a => f a
  | Randint lo hi k => Randint lo hi (λ v, bind (k v) f)
  end.

(** [random.randint(lo, hi)]: an integer N with lo <= N <= hi. *)
Definition randint (lo hi : Z) : rand Z := Randint lo hi Ret.

(** The values [randint lo hi] can return, each with the same weight. *)
Definition outcomes (lo hi : Z) : list Z := seqZ lo (hi - lo + 1).

Definition Qsum (l : list Q) : Q := foldr Qplus 0%Q l.

(** Expectation of [g] over the result, every draw being uniform over
    its range.  (All the ranges of the source are constants with
    lo <= hi; Python raises ValueError on an empty range.) *)
Fixpoint expect {A : Type} (m : rand A) (g : A → Q) : Q :=
  match m with
  | Ret a => g a
  | Randint lo hi k =>
      (Qsum (map (λ v, expect (k v) g) (outcomes lo hi))
         / inject_Z (hi - lo + 1))%Q
  end.

Definition indicator (b : bool) : Q := if b then 1%Q else 0%Q.

(** Probability that the result satisfies [P]. *)
Definition pr {A : Type} (m : rand A) (P : A → bool) : Q :=
  expect m (λ a, indicator (P a)).

(** The results that can occur. *)
Fixpoint supp {A : Type} (m : rand A) (x : A) : Prop :=
  match m with
  | Ret a => x = a
  | Randint lo hi k => ∃ v, lo ≤ v ≤ hi ∧ supp (k v) x
  end.

(** A seeded run: the [pos]-th cell of the tape is reduced into the
    range of the draw that consumes it. *)
Fixpoint run {A : Type} (m : rand A) (tape : nat → Z) (pos : nat) : A * nat :=
  match m with
  | Ret a => (a, pos)
  | Randint lo hi k =>
      run (k (lo + tape pos `mod` (hi - lo + 1))) tape (S pos)
  end.

#[export] Instance rand_ret : MRet rand := @Ret.
#[export] Instance rand_bind : MBind rand := λ A B f m, bind m f.

End Rand.

(* ===================================================================== *)
(** * Python results and exceptions *)
(* ===================================================================== *)

Module Py.

(** The exceptions the modelled library calls can raise. *)
Inductive exn : Type :=
  | ZeroDivisionError
  | FileExistsError
  | FileNotFoundError
  | NotADirectoryError
  | IsADirectoryError
  | OSError
  | EOFError
  | IndexError
  | ValueError.

Inductive result (A : Type) : Type :=
  | Ok (a : A)
  | Raise (e : exn).
Arguments Ok {A} a.
Arguments Raise {A} e.

#[export] Instance result_ret : MRet result := @Ok.
#[export] Instance result_bind : MBind result := λ A B f r,
  match r with
  | Ok a => f a
  | Raise e => Raise e
  end.

(** [for x in l: body(x)] in the exception monad, collecting results. *)
Fixpoint for_each {A B : Type} (body : A → result B) (l : list A)
  : result (list B) :=
  match l with
  | [] => Ok []
  | x :: l' => y ← body x; ys ← for_each body l'; mret (y :: ys)
  end.

(** [l[i]] for a Python list and a non-negative index. *)
Definition list_get {A : Type} (l : list A) (i : nat) : result A :=
  match l !! i with
  | Some x => Ok x
  | None => Raise IndexError
  end.

(** [str(i)] for a Python integer. *)
Definition str (i : Z) : string := NilZero.string_of_int (Z.to_int i).

End Py.

(* ===================================================================== *)
(** * The file system *)
(* ===================================================================== *)

Module FS.
Import Py.

(** A path is the list of its components, relative to the working
    directory; [[]] is the working directory itself. *)
Abbreviation path := (list string).

(** Directories, and files with their contents. *)
Record filesystem (C : Type) : Type := Filesystem {
    dirs : gset path;
    files : gmap path C
  }.
Arguments Filesystem {C} dirs files.
Arguments dirs {C} f.
Arguments files {C} f.

Section operations.
Context {C : Type}.
Implicit Types (fs : filesystem C) (p q : path).

Definition isdir fs p : bool := bool_decide (p = [] ∨ p ∈ dirs fs).
Definition isfile fs p : bool := bool_decide (is_Some (files fs !! p)).

(** [os.path.exists] *)
Definition path_exists fs p : bool := isdir fs p || isfile fs p.

(** [os.path.join(p, name)], for [name] a single component. *)
Definition join p (name : string) : path := p ++ [name].

(** A name that is a single component of a path: not empty, neither "."
    nor "..", free of separators and of NUL characters, and no longer
    than the 255 bytes a file name may have.  For such a name [join] is
    [os.path.join], on a file system that tells upper case from lower
    case. *)
Definition component (name : string) : bool :=
  negb (bool_decide (name = "" ∨ name = "." ∨ name = ".."))
  && forallb (λ a, negb (bool_decide (a = "/"%char ∨ a = "000"%char)))
             (String.list_ascii_of_string name)
  && bool_decide (String.length name ≤ 255)%nat.

(** The non-empty prefixes of [p], [p] included. *)
Definition ancestors p : list path := (λ n, take n p) <$> seq 1 (length p).

Definition entries fs : gset path := dirs fs ∪ dom (files fs).

(** [os.makedirs(p)]: creates [p] and every missing intermediate
    directory; fails when [p] exists or when a prefix is a file. *)
Definition makedirs p fs : result (filesystem C) :=
  if path_exists fs p then Raise FileExistsError
  else if existsb (isfile fs) (ancestors p) then Raise NotADirectoryError
  else Ok (Filesystem (dirs fs ∪ list_to_set (ancestors p)) (files fs)).

(** What is left once everything at or below [p] is removed. *)
Definition remove_below p fs : filesystem C :=
  Filesystem (filter (λ q, ¬ p `prefix_of` q) (dirs fs))
             (filter (λ kv, ¬ p `prefix_of` kv.1) (files fs)).

(** [shutil.rmtree(p)]: removes the directory [p] and all it
    contains.  Asked to remove the working directory, it empties it
    and then fails on the directory itself. *)
Definition rmtree p fs : result unit * filesystem C :=
  if decide (p = []) then (Raise OSError, Filesystem ∅ ∅)
  else if bool_decide (p ∈ dirs fs) then (Ok tt, remove_below p fs)
  else if isfile fs p then (Raise NotADirectoryError, fs)
  else (Raise FileNotFoundError, fs).

(** [child_name d q = Some name] when [q] is [d/name]. *)
Fixpoint child_name (d q : path) : option string :=
  match d, q with
  | [], [name] => Some name
  | x :: d', y :: q' => if decide (x = y) then child_name d' q' else None
  | _, _ => None
  end.

(** [os.listdir(p)]: the names of the entries of directory [p], in
    the arbitrary order in which the system reports them. *)
Definition listdir p fs : result (list string) :=
  if isdir fs p then Ok (omap (child_name p) (elements (entries fs)))
  else if isfile fs p then Raise NotADirectoryError
  else Raise FileNotFoundError.

(** The names of the files and of the sub-directories of directory
    [p]: together, the entries [listdir] reports. *)
Definition files_in p fs : list string :=
  omap (child_name p) (elements (dom (files fs))).

Definition subdirs_in p fs : list string :=
  omap (child_name p) (elements (dirs fs)).

(** Opening [p] for writing and storing [c] in it. *)
Definition write_file p (c : C) fs : result (filesystem C) :=
  if isdir fs p then Raise IsADirectoryError
  else if isdir fs (removelast p) then
    Ok (Filesystem (dirs fs) (<[p := c]> (files fs)))
  else Raise FileNotFoundError.

(** Reading the contents of file [p]. *)
Definition read_file p fs : result C :=
  match files fs !! p with
  | Some c => Ok c
  | None => if isdir fs p then Raise IsADirectoryError
            else Raise FileNotFoundError
  end.

(** A file system is well formed when every entry lies in a
    directory, nothing is both a file and a directory, and the
    working directory is not listed among the entries. *)
Definition wf fs : Prop :=
  (∀ q p, q ∈ entries fs → p `prefix_of` q → p ≠ q → isdir fs p = true)
  ∧ (∀ q, q ∈ dirs fs → files fs !! q = None)
  ∧ [] ∉ entries fs.

(** Well-formedness, checked by running through the entries. *)
Definition wf_check fs : bool :=
  forallb (λ q, forallb (λ n, isdir fs (take n q)) (seq 0 (length q)))
          (elements (entries fs))
  && forallb (λ q, negb (isfile fs q)) (elements (dirs fs))
  && negb (bool_decide ([] ∈ entries fs)).

End operations.
End FS.

(* ===================================================================== *)
(** * Transfer-learning notebook *)
(* ===================================================================== *)

Module TransferLearning.
Import Rand Py FS.

(** ** Images

    A PIL image is kept as its canvas and the drawing calls made on
    it; rasterising the calls is PIL's business. *)

Abbreviation point := (Z * Z)%type.
Abbreviation color := (Z * Z * Z)%type.

Inductive drawing : Type :=
  | ellipse (xy : list point) (fill : color)
  | rectangle (xy : list point) (fill : color)
  | polygon (xy : list point) (fill : color).

Record image : Type := Image {
    size_of : nat * nat;
    background_of : color;
    drawn_of : list drawing
  }.

(** [Image.new("RGB", size, color)] *)
Definition Image_new (size : nat * nat) (background : color) : image :=
  Image size background [].

(** [ImageDraw.Draw(img).ellipse(...)] and its siblings. *)
Definition draw (d : drawing) (img : image) : image :=
  Image (size_of img) (background_of img) (drawn_of img ++ [d]).

(** ** [create_image] *)

Definition create_image (size : nat * nat) (shape : string) : rand image :=
  xy1 ← randint 10 40;
  xy2 ← randint 60 100;
  c1 ← randint 0 200;
  c2 ← randint 0 200;
  c3 ← randint 0 200;
  let col := (c1, c2, c3) in
  let img := Image_new size (255, 255, 255) in
  mret (if decide (shape = "circle") then
          draw (ellipse [(xy1, xy1); (xy2, xy2)] col) img
        else if decide (shape = "square") then
          draw (rectangle [(xy1, xy1); (xy2, xy2)] col) img
        else (* triangle *)
          draw (polygon [(xy1, xy1); (xy2, xy2); (xy2, xy1)] col) img).

(** The single drawing of an image, its corner list and its colour. *)
Definition the_drawing (img : image) : option drawing :=
  match drawn_of img with
  | [d] => Some d
  | _ => None
  end.

Definition xy_of (d : drawing) : list point :=
  match d with
  | ellipse xy _ | rectangle xy _ | polygon xy _ => xy
  end.

Definition fill_of (d : drawing) : color :=
  match d with
  | ellipse _ fill | rectangle _ fill | polygon _ fill => fill
  end.

Definition corner (n : nat) (img : image) : option point :=
  d ← the_drawing img; xy_of d !! n.

Definition channels (img : image) : list Z :=
  match the_drawing img with
  | Some d => let '(r, g, b) := fill_of d in [r; g; b]
  | None => []
  end.

(** A point that falls on the canvas of an image of the given size. *)
Definition on_canvas (size : nat * nat) (pt : point) : Prop :=
  (0 ≤ pt.1 < Z.of_nat size.1) ∧ (0 ≤ pt.2 < Z.of_nat size.2).

(** PIL fills a shape within the bounding box of the coordinates it is
    given, both ends included, and only on the canvas: the pixels outside
    the box of every drawing call keep the background colour. *)
Definition in_box (xy : list point) (px : point) : Prop :=
  (∃ p q, p ∈ xy ∧ q ∈ xy ∧ p.1 ≤ px.1 ≤ q.1)
  ∧ (∃ p q, p ∈ xy ∧ q ∈ xy ∧ p.2 ≤ px.2 ≤ q.2).

(** The pixels of the raster a drawing call can have painted. *)
Definition can_paint (img : image) (px : point) : Prop :=
  on_canvas (size_of img) px
  ∧ ∃ d, d ∈ drawn_of img ∧ in_box (xy_of d) px.

(** ** The world [generate_image_data] runs in *)

(** The lines the function prints. *)
Inductive output : Type :=
  | PromptReplace            (* "Image folder already exists. Enter Y ..." *)
  | DeletingOldImages        (* "Deleting old images..." *)
  | GeneratingNewImages      (* "Generating new images..." *)
  | Progress (num den : Z)   (* "Progress:{:.0%}".format(num / den) *)
  | ErrorSavingImage (p : path).  (* "Error saving image", p *)

Record world : Type := World {
    w_fs : filesystem image;     (* the disk *)
    w_stdin : list string;       (* the lines the user will type *)
    w_stdout : list output;      (* what has been printed *)
    w_tape : nat → Z;            (* the random source *)
    w_pos : nat;                 (* how much of it was consumed *)
    w_disk_ok : nat → bool;      (* does the n-th save attempt go through? *)
    w_saves : list (path * bool) (* the save attempts made, with outcome *)
  }.

Definition set_fs (fs : filesystem image) (w : world) : world :=
  World fs (w_stdin w) (w_stdout w) (w_tape w) (w_pos w)
        (w_disk_ok w) (w_saves w).

(** State and exception monad over the world. *)
Definition M (A : Type) : Type := world → result A * world.

#[export] Instance M_ret : MRet M := λ A a w, (Ok a, w).
#[export] Instance M_bind : MBind M := λ A B f m w,
  match m w with
  | (Ok a, w') => f a w'
  | (Raise e, w') => (Raise e, w')
  end.

Definition raise {A : Type} (e : exn) : M A := λ w, (Raise e, w).

(** [try: body  except: handler] with a bare [except]. *)
Definition try_except {A : Type} (body handler : M A) : M A := λ w,
  match body w with
  | (Ok a, w') => (Ok a, w')
  | (Raise _, w') => handler w'
  end.

(** Lifting a file-system operation. *)
Definition on_fs (op : filesystem image → result (filesystem image))
  : M unit := λ w,
  match op (w_fs w) with
  | Ok fs' => (Ok tt, set_fs fs' w)
  | Raise e => (Raise e, w)
  end.

Definition os_path_exists (p : path) : M bool := λ w,
  (Ok (path_exists (w_fs w) p), w).

Definition os_makedirs (p : path) : M unit := on_fs (makedirs p).

Definition shutil_rmtree (p : path) : M unit := λ w,
  let '(r, fs') := rmtree p (w_fs w) in (r, set_fs fs' w).

Definition print (o : output) : M unit := λ w,
  (Ok tt, World (w_fs w) (w_stdin w) (w_stdout w ++ [o]) (w_tape w)
                (w_pos w) (w_disk_ok w) (w_saves w)).

(** [input(prompt)]: prints the prompt and reads one line. *)
Definition input (prompt : output) : M string := λ w,
  let out := w_stdout w ++ [prompt] in
  match w_stdin w with
  | [] => (Raise EOFError,
           World (w_fs w) [] out (w_tape w) (w_pos w)
                 (w_disk_ok w) (w_saves w))
  | line :: rest =>
      (Ok line,
       World (w_fs w) rest out (w_tape w) (w_pos w)
             (w_disk_ok w) (w_saves w))
  end.

(** Running a random computation on the world's random source. *)
Definition draw_from_world {A : Type} (m : rand A) : M A := λ w,
  let '(a, pos') := run m (w_tape w) (w_pos w) in
  (Ok a, World (w_fs w) (w_stdin w) (w_stdout w) (w_tape w) pos'
               (w_disk_ok w) (w_saves w)).

(** [img.save(p)]: one attempt at writing the file.  It fails when the
    disk does (transiently) or when the path cannot be written; a
    failed attempt leaves the disk as it was. *)
Definition Image_save (img : image) (p : path) : M unit := λ w,
  let attempt (ok : bool) (fs : filesystem image) :=
    World fs (w_stdin w) (w_stdout w) (w_tape w) (w_pos w)
          (w_disk_ok w) (w_saves w ++ [(p, ok)]) in
  if w_disk_ok w (length (w_saves w)) then
    match write_file p img (w_fs w) with
    | Ok fs' => (Ok tt, attempt true fs')
    | Raise e => (Raise e, attempt false (w_fs w))
    end
  else (Raise OSError, attempt false (w_fs w)).

(** [for x in l: body(x)] *)
Fixpoint for_in {A : Type} (l : list A) (body : A → M unit) : M unit :=
  match l with
  | [] => mret tt
  | x :: l' => _ ← body x; for_in l' body
  end.

(** ** [generate_image_data] *)

(** One pass of the inner loop: the image of [classname] in round [i]. *)
Definition save_class_image (size : nat * nat) (img_dir : path) (i : Z)
    (classname : string) : M unit :=
  img ← draw_from_world (create_image size classname);
  let saveFolder := join img_dir classname in
  present ← os_path_exists saveFolder;
  _ ← (if negb present then os_makedirs saveFolder else mret tt);
  let imgFileName := join saveFolder ((classname +:+ str i) +:+ ".jpg") in
  try_except (Image_save img imgFileName)
    (try_except
       (* Retry *)
       (Image_save img imgFileName)
       (* We gave it a shot *)
       (print (ErrorSavingImage imgFileName))).

(** A class label that the file system takes as the name of a folder
    and as the stem of the names of its files: a single component, short
    enough for [classname + str(i) + '.jpg'] to be a file name ([i] has
    at most 16 digits in the runs considered). *)
Definition label_ok (classname : string) : bool :=
  component classname && bool_decide (String.length classname ≤ 235)%nat.

(** The case counts for which the float [(cases - 1) / len(classes)]
    compares with the integer [i] as the exact quotient does: [cases - 1]
    is below 2^53 in size. *)
Definition float_exact (cases : Z) : Prop := - 2 ^ 53 < cases - 1 < 2 ^ 53.

(** The loop condition [i < (cases - 1) / len(classes)]: a true
    division, compared here over the rationals. *)
Definition loop_test (classes : list string) (cases i : Z) : M bool :=
  if decide (length classes = 0%nat) then raise ZeroDivisionError
  else mret (bool_decide (i * Z.of_nat (length classes) < cases - 1)).

(** The loop body; returns the incremented [i]. *)
Definition loop_body (classes : list string) (size : nat * nat)
    (cases : Z) (img_dir : path) (i : Z) : M Z :=
  _ ← (if decide (i `mod` 25 = 0) then
         if decide (cases = 0) then raise ZeroDivisionError
         else print (Progress (i * Z.of_nat (length classes)) cases)
       else mret tt);
  let i := i + 1 in
  _ ← for_in classes (save_class_image size img_dir i);
  mret i.

(** The [while] loop, unrolled at most [fuel] times; [None] when the
    fuel runs out. *)
Fixpoint while_loop (fuel : nat) (classes : list string)
    (size : nat * nat) (cases : Z) (img_dir : path) (i : Z) (w : world)
  : option (result unit * world) :=
  match fuel with
  | O => None
  | S fuel' =>
      match loop_test classes cases i w with
      | (Raise e, w1) => Some (Raise e, w1)
      | (Ok false, w1) => Some (Ok tt, w1)
      | (Ok true, w1) =>
          match loop_body classes size cases img_dir i w1 with
          | (Raise e, w2) => Some (Raise e, w2)
          | (Ok i', w2) => while_loop fuel' classes size cases img_dir i' w2
          end
      end
  end.

(** What precedes the loop: [true] to go on, [false] for the early
    [return]. *)
Definition confirm_replace (img_dir : path) : M bool :=
  present ← os_path_exists img_dir;
  if (present : bool) then
    replace_folder ← input PromptReplace;
    if decide (replace_folder = "Y") then
      _ ← print DeletingOldImages;
      _ ← shutil_rmtree img_dir;
      mret true
    else mret false (* Quit - no need to replace existing images *)
  else mret true.

Definition generate_image_data (classes : list string) (size : nat * nat)
    (cases : Z) (img_dir : path) (w : world)
  : option (result unit * world) :=
  match confirm_replace img_dir w with
  | (Raise e, w1) => Some (Raise e, w1)
  | (Ok false, w1) => Some (Ok tt, w1)
  | (Ok true, w1) =>
      match (_ ← os_makedirs img_dir; print GeneratingNewImages) w1 with
      | (Raise e, w2) => Some (Raise e, w2)
      | (Ok _, w2) =>
          while_loop (S (Z.to_nat cases)) classes size cases img_dir 0 w2
      end
  end.

(** The cell's own call: three classes, 128x128 images. *)
Definition classnames : list string := ["circle"; "square"; "triangle"].
Definition img_size : nat * nat := (128%nat, 128%nat).
Definition folder_name : path := ["shapes"].

(** ** What a run of [generate_image_data] does, step by step *)

(** The file of the image of class [c] made in round [i]. *)
Definition image_file (img_dir : path) (c : string) (i : Z) : path :=
  join (join img_dir c) ((c +:+ str i) +:+ ".jpg").

(** The quotient [a / b] rounded up, for a positive [b]. *)
Definition ceil_div (a b : Z) : Z := (a + b - 1) / b.

(** The number of rounds of the loop. *)
Definition rounds (classes : list string) (cases : Z) : Z :=
  Z.max 0 (ceil_div (cases - 1) (Z.of_nat (length classes))).

(** The files the loop tries to save, in the order of the attempts. *)
Definition image_files (img_dir : path) (classes : list string)
    (first count : Z) : list path :=
  flat_map (λ i, map (λ c, image_file img_dir c i) classes)
           (seqZ first count).

(** The attempts made on a list of files when the [k]-th attempt of the
    run goes through iff [ok k]: one attempt per file, and exactly one
    more after a failure. *)
Fixpoint retry_trace (ok : nat → bool) (k : nat) (ps : list path)
  : list (path * bool) :=
  match ps with
  | [] => []
  | p :: ps' =>
      if ok k then (p, true) :: retry_trace ok (S k) ps'
      else (p, false) :: (p, ok (S k)) :: retry_trace ok (S (S k)) ps'
  end.

(** The files given up: those whose two attempts both fail. *)
Fixpoint given_up (ok : nat → bool) (k : nat) (ps : list path) : list path :=
  match ps with
  | [] => []
  | p :: ps' =>
      if ok k then given_up ok (S k) ps'
      else if ok (S k) then given_up ok (S (S k)) ps'
      else p :: given_up ok (S (S k)) ps'
  end.


(** The steps of the loop: the progress line at the head of the round
    that starts with [i], and the image of class [c] in round [i]. *)
Inductive step : Type :=
| Announce (i : Z)
| Make (i : Z) (c : string).

Definition round_steps (classes : list string) (i : Z) : list step :=
  Announce i :: map (Make (i + 1)) classes.

Fixpoint loop_steps (classes : list string) (i : Z) (n : nat) : list step :=
  match n with
  | O => []
  | S n' => round_steps classes i ++ loop_steps classes (i + 1) n'
  end.

(** The world after a step that meets no error but failing saves. *)
Definition announce_world (classes : list string) (cases i : Z) (w : world)
  : world :=
  if decide (i `mod` 25 = 0) then
    World (w_fs w) (w_stdin w)
          (w_stdout w ++ [Progress (i * Z.of_nat (length classes)) cases])
          (w_tape w) (w_pos w) (w_disk_ok w) (w_saves w)
  else w.

Definition make_world (size : nat * nat) (img_dir : path) (i : Z)
    (c : string) (w : world) : world :=
  let img := (run (create_image size c) (w_tape w) (w_pos w)).1 in
  let pos' := (run (create_image size c) (w_tape w) (w_pos w)).2 in
  let p := image_file img_dir c i in
  let k := length (w_saves w) in
  let dirs' := dirs (w_fs w) ∪ {[join img_dir c]} in
  let written := Filesystem dirs' (<[p := img]> (files (w_fs w))) in
  let unwritten := Filesystem dirs' (files (w_fs w)) in
  if w_disk_ok w k then
    World written (w_stdin w) (w_stdout w) (w_tape w) pos' (w_disk_ok w)
          (w_saves w ++ [(p, true)])
  else if w_disk_ok w (S k) then
    World written (w_stdin w) (w_stdout w) (w_tape w) pos' (w_disk_ok w)
          (w_saves w ++ [(p, false); (p, true)])
  else
    World unwritten (w_stdin w) (w_stdout w ++ [ErrorSavingImage p])
          (w_tape w) pos' (w_disk_ok w)
          (w_saves w ++ [(p, false); (p, false)]).

Definition step_world (classes : list string) (size : nat * nat)
    (cases : Z) (img_dir : path) (w : world) (s : step) : world :=
  match s with
  | Announce i => announce_world classes cases i w
  | Make i c => make_world size img_dir i c w
  end.

(** The file a step tries to save and the folder it needs. *)
Definition step_files (img_dir : path) (l : list step) : list path :=
  flat_map (λ s, match s with
                 | Make i c => [image_file img_dir c i]
                 | Announce _ => []
                 end) l.

Definition step_folders (img_dir : path) (l : list step) : list path :=
  flat_map (λ s, match s with
                 | Make i c => [join img_dir c]
                 | Announce _ => []
                 end) l.

(** The world when the loop starts on a folder that was missing. *)
Definition started (img_dir : path) (w : world) : world :=
  World (Filesystem (dirs (w_fs w) ∪ list_to_set (ancestors img_dir))
                    (files (w_fs w)))
        (w_stdin w) (w_stdout w ++ [GeneratingNewImages]) (w_tape w)
        (w_pos w) (w_disk_ok w) (w_saves w).

(** What the loop relies on and maintains: the output folder and its
    parents are directories, class folders are not files, image files
    are not directories. *)
Definition loop_inv (img_dir : path) (w : world) : Prop :=
  img_dir ≠ []
  ∧ (∀ q, q ∈ ancestors img_dir → q ∈ dirs (w_fs w))
  ∧ (∀ q, q ∈ dirs (w_fs w) → files (w_fs w) !! q = None)
  ∧ (∀ c, files (w_fs w) !! join img_dir c = None)
  ∧ (∀ c name, join (join img_dir c) name ∉ dirs (w_fs w)).

(** A fresh output folder: it does not exist yet, on a well-formed
    disk where none of its parents is a file. *)
Definition fresh (fs : filesystem image) (img_dir : path) : Prop :=
  wf fs
  ∧ path_exists fs img_dir = false
  ∧ existsb (isfile fs) (ancestors img_dir) = false.

(** The world once the user has typed "Y" and the old folder is gone. *)
Definition cleared (img_dir : path) (w : world) : world :=
  World (remove_below img_dir (w_fs w)) (tail (w_stdin w))
        (w_stdout w ++ [PromptReplace; DeletingOldImages]) (w_tape w)
        (w_pos w) (w_disk_ok w) (w_saves w).

(** The two ways to the loop: the output folder is fresh, or it is a
    directory that the user lets the run replace.  [w0] is the world
    with the folder out of the way. *)
Definition loop_reached (img_dir : path) (w w0 : world) : Prop :=
  (fresh (w_fs w) img_dir ∧ w0 = w)
  ∨ (wf (w_fs w) ∧ img_dir ∈ dirs (w_fs w)
     ∧ head (w_stdin w) = Some "Y" ∧ w0 = cleared img_dir w).

(** A line the loop may print: the progress line at the head of a round
    [i] that is a multiple of 25, showing the part [i * N / cases] of the
    work; or the report of an image of the run that was not saved. *)
Definition loop_line (classes : list string) (cases : Z) (img_dir : path)
    (o : output) : Prop :=
  match o with
  | Progress num den =>
      den = cases
      ∧ ∃ i, 0 ≤ i < rounds classes cases ∧ i `mod` 25 = 0
             ∧ num = i * Z.of_nat (length classes)
             ∧ 0 ≤ num < cases - 1
  | ErrorSavingImage p =>
      ∃ i c, 1 ≤ i ≤ rounds classes cases ∧ c ∈ classes
             ∧ p = image_file img_dir c i
  | _ => False
  end.


(** ** [predict_image] *)

(** A trained Keras model, seen through [classifier.predict]: from a
    batch of feature arrays to one vector of class probabilities per
    row it outputs. *)
Record classifier : Type := Classifier {
    predict : list (list Q) → list (list Q)
  }.

(** [np.argmax]: the index of the first occurrence of the maximum. *)
Fixpoint argmax_from (l : list Q) (i best_i : nat) (best : Q) : nat :=
  match l with
  | [] => best_i
  | x :: l' =>
      if Qle_bool x best then argmax_from l' (S i) best_i best
      else argmax_from l' (S i) i x
  end.

(** [m] is the first maximum of [l], found at [idx]. *)
Definition first_max (l : list Q) (idx : nat) (m : Q) : Prop :=
  l !! idx = Some m
  ∧ (∀ k y, l !! k = Some y → (y <= m)%Q)
  ∧ (∀ k y, (k < idx)%nat → l !! k = Some y → (y < m)%Q).

Definition np_argmax (l : list Q) : result nat :=
  match l with
  | [] => Raise ValueError
  | x :: l' => Ok (argmax_from l' 1 0 x)
  end.

Definition predict_image (classifier : classifier)
    (image_array : list (list Q)) : result (list string) :=
  (* imgfeatures = image_array.astype('float32'); imgfeatures /= 255 *)
  let imgfeatures := map (map (λ v, v / 255)%Q) image_array in
  (* These are the classes our model can predict *)
  let classnames := ["circle"; "square"; "triangle"] in
  let predictions := predict classifier imgfeatures in
  for_each (λ prediction,
              class_idx ← np_argmax prediction;
              list_get classnames class_idx)
           predictions.

End TransferLearning.

(* ===================================================================== *)
(** * U-Net (PyTorch) notebook *)
(* ===================================================================== *)

Module UNet.
Import Rand Py FS.

(** A grey-level image: its rows of pixel intensities. *)
Abbreviation gray := (list (list Q)).
(** A tensor with a leading channel dimension. *)
Abbreviation tensor := (list gray).

(** [skimage.io.imread(p, as_gray = True)] *)
Definition imread (fs : filesystem gray) (p : path) : result gray :=
  read_file p fs.

(** [a / 255] on an array. *)
Definition divide_255 (a : gray) : gray := map (map (λ v, v / 255)%Q) a.

(** [Image.transpose(Image.FLIP_LEFT_RIGHT)]: each row is reversed. *)
Definition FLIP_LEFT_RIGHT (a : gray) : gray := map (@reverse Q) a.

(** [np.expand_dims(a, axis=0)] followed by [torch.Tensor]. *)
Definition expand_dims (a : gray) : tensor := [a].

Module PlaneDataSet.

Record t : Type := Make {
    image_path : path;
    mask_path : path;
    filenames : list string
  }.

Definition __init__ (fs : filesystem gray) (image_path mask_path : path)
  : result t :=
  filenames ← listdir mask_path fs;
  mret (Make image_path mask_path filenames).

Section getitem.
(** [Image.convert("L")] on one pixel: PIL's conversion of an intensity
    to 8 bits, whatever it does to the value. *)
Variable convert_L : Q → Q.

(** [Image.fromarray(a).transpose(Image.FLIP_LEFT_RIGHT).convert("L")]
    read back with [np.array]. *)
Definition flipped (a : gray) : gray :=
  map (map convert_L) (FLIP_LEFT_RIGHT a).

(** The body of [__getitem__] once [rand] is drawn. *)
Definition getitem_with (fs : filesystem gray) (self : t) (index : nat)
    (rand : Z) : result (tensor * tensor) :=
  name ← list_get (filenames self) index;
  (* Load the image *)
  let img_path := join (image_path self) name in
  image ← imread fs img_path;
  (* Normalize the image pixels between 0 and 1 *)
  let image_np := divide_255 image in
  (* Randomly flip the image half the time *)
  let image_np :=
    if bool_decide (rand > 1) then flipped image_np else image_np in
  let image_tensor := expand_dims image_np in
  (* Now do all the same stuff to the mask image *)
  let mask_path := join (mask_path self) name in
  mask ← imread fs mask_path;
  let mask_np := divide_255 mask in
  let mask_np :=
    if bool_decide (rand > 1) then flipped mask_np else mask_np in
  let mask_tensor := expand_dims mask_np in
  mret (image_tensor, mask_tensor).

Definition __getitem__ (fs : filesystem gray) (self : t) (index : nat)
  : rand (result (tensor * tensor)) :=
  (* Get a random intenger between 1 and 2 *)
  rand ← randint 0 2;
  mret (getitem_with fs self index rand).

(** What an access returns when the mirror is applied to both the
    image and the mask ([mirror = true]) or to neither. *)
Definition paired_access (fs : filesystem gray) (self : t) (index : nat)
    (mirror : bool) : result (tensor * tensor) :=
  name ← list_get (filenames self) index;
  image ← imread fs (join (image_path self) name);
  mask ← imread fs (join (mask_path self) name);
  let augment a := if mirror then flipped (divide_255 a) else divide_255 a in
  mret (expand_dims (augment image), expand_dims (augment mask)).
End getitem.

Definition __len__ (self : t) : nat := length (filenames self).

End PlaneDataSet.

(** ** The cell that shows the training images with their masks *)

(** What is shown in a subplot: [plt.imshow(img, "gray")], or an image
    with a mask shown over it. *)
Inductive shown : Type :=
  | Imshow (img : gray)
  | Overlay (img mask : gray).

(** [fig.add_subplot(nrows, ncols, index)] with what is then shown in
    it. *)
Record subplot : Type := Subplot {
    nrows : nat;
    ncols : nat;
    index : nat;
    content : shown
  }.

(** The body of the loop over the files; the counter [cell] and the
    figure go in and come out. *)
Definition show_file (fs : filesystem gray) (image_dir mask_dir : path)
    (rows cell : nat) (fig : list subplot) (file : string)
  : result (nat * list subplot) :=
  let cell := (cell + 1)%nat in
  (* Open the image and mask files *)
  let img_path := join image_dir file in
  img ← imread fs img_path;
  let mask_path := join mask_dir file in
  mask ← imread fs mask_path;
  (* plot the image *)
  let fig := fig ++ [Subplot rows 3 cell (Imshow img)] in
  let cell := (cell + 1)%nat in
  (* plot the mask *)
  let fig := fig ++ [Subplot rows 3 cell (Imshow mask)] in
  let cell := (cell + 1)%nat in
  (* Plot them overlaid *)
  let fig := fig ++ [Subplot rows 3 cell (Overlay img mask)] in
  mret (cell, fig).

Fixpoint show_files (fs : filesystem gray) (image_dir mask_dir : path)
    (rows cell : nat) (fig : list subplot) (files : list string)
  : result (nat * list subplot) :=
  match files with
  | [] => Ok (cell, fig)
  | file :: files' =>
      '(cell, fig) ← show_file fs image_dir mask_dir rows cell fig file;
      show_files fs image_dir mask_dir rows cell fig files'
  end.

(** The cell, for the folders [image_dir] and [mask_dir]; it returns the
    subplots of the figure in the order in which they are added. *)
Definition show_training_images (fs : filesystem gray)
    (image_dir mask_dir : path) : result (list subplot) :=
  files ← listdir image_dir fs;
  let rows := length files in
  let cell := 0%nat in
  '(_, fig) ← show_files fs image_dir mask_dir rows cell [] files;
  mret fig.

(** ** The data loader and the training loop *)

Section training.
(** The network with its optimizer state, one sample's input and mask,
    and the network's output on a batch. *)
Context {net datum target output : Type}.
(** [model(data)] *)
Variable forward : net → list datum → output.
(** [loss_criteria(output, target).item()] *)
Variable loss_criteria : output → list target → Q.
(** [loss.backward(); optimizer.step()] *)
Variable backward_step : net → list datum → list target → net.

(** A [torch.utils.data.DataLoader]; [dataset] lists the samples in
    the order in which the shuffling loader visits them. *)
Record DataLoader : Type := Loader {
    dataset : list (datum * target);
    batch_size : nat
  }.

Definition load_data (samples : list (datum * target)) : DataLoader :=
  Loader samples 2.

Fixpoint chunks (fuel n : nat) (l : list (datum * target))
  : list (list (datum * target)) :=
  match fuel, l with
  | S fuel', _ :: _ => take n l :: chunks fuel' n (drop n l)
  | _, _ => []
  end.

(** The batches of one epoch ([batch_size] is at least 1). *)
Definition batches (data_loader : DataLoader)
  : list (list (datum * target)) :=
  chunks (length (dataset data_loader)) (batch_size data_loader)
         (dataset data_loader).

(** One batch of the loop of [train]. *)
Definition train_batch (state : net * Q) (batch : list (datum * target))
  : net * Q :=
  let '(model, train_loss) := state in
  let data := batch.*1 in
  let target := batch.*2 in
  (* Push the data forward through the model layers *)
  let output := forward model data in
  (* Get the loss *)
  let loss := loss_criteria output target in
  (* Keep a running total *)
  let train_loss := (train_loss + loss)%Q in
  (* Backpropagate *)
  (backward_step model data target, train_loss).

Definition train (model : net) (data_loader : DataLoader)
  : result (Q * net) :=
  let '(model, train_loss) :=
    foldl train_batch (model, 0%Q) (batches data_loader) in
  (* return average loss for the epoch *)
  if decide (length (dataset data_loader) = 0%nat)
  then Raise ZeroDivisionError
  else
    let avg_training_loss :=
      (train_loss / inject_Z (Z.of_nat (length (dataset data_loader))))%Q in
    Ok (avg_training_loss, model).

(** The loss values that [train] accumulates over an epoch, one per
    batch. *)
Definition batch_losses (model : net) (data_loader : DataLoader)
  : list Q :=
  (foldl (λ '(model, acc) batch,
            (backward_step model batch.*1 batch.*2,
             acc ++ [loss_criteria (forward model batch.*1) batch.*2]))
         (model, []) (batches data_loader)).2.

End training.

End UNet.

(* ===================================================================== *)
(** * Concrete inputs *)
(* ===================================================================== *)

Module Examples.
Import Rand Py FS.

(** A segmentation folder with two planes and their masks. *)
Definition planes_fs : filesystem UNet.gray :=
  Filesystem
    (list_to_set [["image"]; ["mask"]])
    (list_to_map
       [(["image"; "p1.png"], [[0; 255]; [51; 102]]%Q);
        (["image"; "p2.png"], [[255; 255]; [0; 0]]%Q);
        (["mask"; "p1.png"], [[0; 255]; [0; 255]]%Q);
        (["mask"; "p2.png"], [[255; 0]; [0; 0]]%Q)]).

Definition planes : UNet.PlaneDataSet.t :=
  UNet.PlaneDataSet.Make ["image"] ["mask"] ["p1.png"; "p2.png"].

(** A classifier that is always rather sure to see a square. *)
Definition square_fan : TransferLearning.classifier :=
  TransferLearning.Classifier
    (map (λ _, [1 # 10; 7 # 10; 2 # 10]%Q)).

(** A classifier trained on four classes, always rather sure to see the
    fourth. *)
Definition four_way : TransferLearning.classifier :=
  TransferLearning.Classifier
    (map (λ _, [1 # 10; 1 # 10; 2 # 10; 6 # 10]%Q)).

(** A segmentation folder where the mask [p3.png] has no image. *)
Definition mismatched_fs : filesystem UNet.gray :=
  Filesystem
    (list_to_set [["image"]; ["mask"]])
    (list_to_map
       [(["image"; "p1.png"], [[0; 255]; [51; 102]]%Q);
        (["mask"; "p1.png"], [[0; 255]; [0; 255]]%Q);
        (["mask"; "p3.png"], [[255; 0]; [0; 0]]%Q)]).

(** The folder of [planes_fs] after a notebook was opened in the mask
    folder: it holds a sub-folder besides the two masks. *)
Definition checkpointed_fs : filesystem UNet.gray :=
  Filesystem
    (list_to_set [["image"]; ["mask"]; ["mask"; ".ipynb_checkpoints"]])
    (list_to_map
       [(["image"; "p1.png"], [[0; 255]; [51; 102]]%Q);
        (["image"; "p2.png"], [[255; 255]; [0; 0]]%Q);
        (["mask"; "p1.png"], [[0; 255]; [0; 255]]%Q);
        (["mask"; "p2.png"], [[255; 0]; [0; 0]]%Q)]).

(** An empty disk, a user who types nothing, a disk that never fails. *)
Definition empty_world : TransferLearning.world :=
  TransferLearning.World (Filesystem ∅ ∅) [] [] (λ n, Z.of_nat n * 7919) 0
                         (λ _, true) [].

(** A disk that already holds a [shapes] folder with one image, and a
    user who answers "n" to the prompt. *)
Definition declining_world : TransferLearning.world :=
  TransferLearning.World
    (Filesystem
       (list_to_set [["shapes"]; ["shapes"; "circle"]])
       (list_to_map
          [(["shapes"; "circle"; "circle1.jpg"],
            TransferLearning.Image (128%nat, 128%nat) (255, 255, 255) [])]))
    ["n"] [] (λ n, Z.of_nat n * 7919) 0 (λ _, true) [].


(** A disk where [shapes] is a regular file, and a user who answers
    "Y" to the prompt. *)
Definition file_in_the_way : TransferLearning.world :=
  TransferLearning.World
    (Filesystem
       ∅
       (list_to_map
          [(["shapes"],
            TransferLearning.Image (128%nat, 128%nat) (255, 255, 255) [])]))
    ["Y"] [] (λ n, Z.of_nat n * 7919) 0 (λ _, true) [].


(** The disk of [declining_world], with a user who answers "Y". *)
Definition replacing_world : TransferLearning.world :=
  TransferLearning.World
    (Filesystem
       (list_to_set [["shapes"]; ["shapes"; "circle"]])
       (list_to_map
          [(["shapes"; "circle"; "circle1.jpg"],
            TransferLearning.Image (128%nat, 128%nat) (255, 255, 255) [])]))
    ["Y"] [] (λ n, Z.of_nat n * 7919) 0 (λ _, true) [].

End Examples.

(* ===================================================================== *)
(** * Properties of random computations *)
(* ===================================================================== *)

Section rand_facts.
Import Rand.

Lemma Qsum_ext (f g : Z → Q) (l : list Z) :
  (∀ v, v ∈ l → (f v == g v)%Q) → (Qsum (map f l) == Qsum (map g l))%Q.
Proof.
  induction l as [|x l IH]; intros Hfg; simpl; [reflexivity|].
  rewrite (Hfg x) by left.
  rewrite IH; [reflexivity|]. intros v Hv. apply Hfg. by right.
Qed.

Lemma Qsum_const (f : Z → Q) (c : Q) (l : list Z) :
  (∀ v, v ∈ l → (f v == c)%Q) →
  (Qsum (map f l) == inject_Z (Z.of_nat (length l)) * c)%Q.
Proof.
  induction l as [|x l IH]; intros Hf.
  - simpl. ring.
  - cbn [map Qsum foldr length]. fold (Qsum (map f l)).
    rewrite (Hf x) by left.
    rewrite IH by (intros v Hv; apply Hf; by right).
    rewrite Nat2Z.inj_succ, <- Z.add_1_r, inject_Z_plus. ring.
Qed.

Lemma Qsum_indicator_out (v : Z) (l : list Z) :
  v ∉ l → (Qsum (map (λ x, indicator (bool_decide (x = v))) l) == 0)%Q.
Proof.
  induction l as [|x l IH]; intros Hv; simpl; [reflexivity|].
  rewrite bool_decide_eq_false_2 by (intros ->; apply Hv; left).
  rewrite IH by (intros ?; apply Hv; by right). simpl. ring.
Qed.

Lemma Qsum_indicator (v : Z) (l : list Z) :
  NoDup l → v ∈ l →
  (Qsum (map (λ x, indicator (bool_decide (x = v))) l) == 1)%Q.
Proof.
  induction 1 as [|x l Hx Hl IH]; intros Hv; [by apply elem_of_nil in Hv|].
  simpl. destruct (decide (x = v)) as [->|Hne].
  - rewrite bool_decide_eq_true_2 by done.
    rewrite Qsum_indicator_out by done. simpl. ring.
  - rewrite bool_decide_eq_false_2 by done.
    apply elem_of_cons in Hv as [?|Hv]; [congruence|].
    rewrite IH by done. simpl. ring.
Qed.

Lemma length_outcomes (lo hi : Z) :
  lo ≤ hi → Z.of_nat (length (outcomes lo hi)) = hi - lo + 1.
Proof. intros. unfold outcomes. rewrite length_seqZ. lia. Qed.

Lemma elem_of_outcomes (lo hi v : Z) : v ∈ outcomes lo hi ↔ lo ≤ v ≤ hi.
Proof. unfold outcomes. rewrite elem_of_seqZ. lia. Qed.

(** A draw whose value does not change the expectation can be skipped. *)
Lemma expect_Randint_const {A : Type} (lo hi : Z) (k : Z → rand A)
    (g : A → Q) (c : Q) :
  lo ≤ hi →
  (∀ v, lo ≤ v ≤ hi → (expect (k v) g == c)%Q) →
  (expect (Randint lo hi k) g == c)%Q.
Proof.
  intros Hle Hk. cbn [expect].
  rewrite (Qsum_const _ c) by (intros v Hv; apply Hk, elem_of_outcomes, Hv).
  rewrite length_outcomes by done.
  field. change 0%Q with (inject_Z 0). rewrite inject_Z_injective. lia.
Qed.

(** A draw that decides the event alone hits one given value with
    probability one over the size of its range. *)
Lemma expect_Randint_point {A : Type} (lo hi : Z) (k : Z → rand A)
    (g : A → Q) (v : Z) :
  lo ≤ v ≤ hi →
  (∀ x, lo ≤ x ≤ hi → (expect (k x) g == indicator (bool_decide (x = v)))%Q) →
  (expect (Randint lo hi k) g == 1 / inject_Z (hi - lo + 1))%Q.
Proof.
  intros Hv Hk. cbn [expect].
  rewrite (Qsum_ext _ (λ x, indicator (bool_decide (x = v))))
    by (intros x Hx; apply Hk, elem_of_outcomes, Hx).
  rewrite Qsum_indicator; [reflexivity|apply NoDup_seqZ|].
  by apply elem_of_outcomes.
Qed.

(** The cell of the tape, reduced into the range of the draw. *)
Lemma reduce_in_range (lo hi r : Z) :
  lo ≤ hi → lo ≤ lo + r `mod` (hi - lo + 1) ≤ hi.
Proof. intros. pose proof (Z.mod_pos_bound r (hi - lo + 1)). lia. Qed.

End rand_facts.

(* ===================================================================== *)
(** * Properties of the file system *)
(* ===================================================================== *)

Section fs_facts.
Import Py FS.
Context {C : Type}.
Implicit Types (fs : filesystem C) (p q d : path).

Lemma child_name_Some d q (name : string) :
  child_name d q = Some name ↔ q = join d name.
Proof.
  unfold join. revert q. induction d as [|x d IHd]; intros q.
  - destruct q as [|y [|z q]]; cbn; split; intros H; by simplify_eq.
  - destruct q as [|y q]; cbn; [split; intros H; by simplify_eq|].
    case_decide as Hxy.
    + subst y. rewrite IHd. split; intros H; by simplify_eq.
    + split; intros H; by simplify_eq.
Qed.

Lemma NoDup_omap_inj {A B : Type} (f : A → option B) (l : list A) :
  (∀ x y z, f x = Some z → f y = Some z → x = y) →
  NoDup l → NoDup (omap f l).
Proof.
  intros Hinj. induction 1 as [|x l Hx Hl IH]; cbn; [constructor|].
  destruct (f x) as [z|] eqn:Hfx; [|done].
  constructor; [|done].
  intros (y & Hy & Hfy)%list_elem_of_omap.
  by rewrite (Hinj x y z Hfx Hfy) in Hx.
Qed.

(** A listing names every entry of the directory once. *)
Lemma listdir_Ok p fs (l : list string) :
  listdir p fs = Ok l →
  NoDup l ∧ ∀ name, name ∈ l ↔ join p name ∈ entries fs.
Proof.
  unfold listdir. destruct (isdir fs p); [|by destruct (isfile fs p)].
  intros [= <-]. split.
  - apply NoDup_omap_inj; [|apply NoDup_elements].
    intros x y z ->%child_name_Some ->%child_name_Some. done.
  - intros name. rewrite list_elem_of_omap. split.
    + intros (q & Hq%elem_of_elements & ->%child_name_Some). done.
    + intros Hq. exists (join p name).
      by rewrite elem_of_elements, child_name_Some.
Qed.

Lemma elem_of_ancestors p q :
  q ∈ ancestors p ↔ q ≠ [] ∧ q `prefix_of` p.
Proof.
  unfold ancestors. rewrite list_elem_of_fmap. split.
  - intros (n & -> & Hn%elem_of_seq). split.
    + destruct p, n; cbn in *; try done; lia.
    + apply prefix_take.
  - intros [Hq [k ->]]. exists (length q). split.
    + by rewrite take_app_length.
    + apply elem_of_seq. rewrite length_app. destruct q; cbn; [done|lia].
Qed.

Lemma ancestors_join p (name : string) q :
  q ∈ ancestors (join p name) ↔ q ∈ ancestors p ∨ q = join p name.
Proof.
  rewrite !elem_of_ancestors. unfold join. split.
  - intros [Hq Hpre]. destruct (decide (q = p ++ [name])); [by right|left].
    split; [done|]. destruct Hpre as [k Hk].
    destruct k as [|y k _] using rev_ind.
    + rewrite app_nil_r in Hk. congruence.
    + rewrite app_assoc in Hk. apply app_inj_tail in Hk as [-> _].
      by eexists.
  - intros [[Hq Hpre]| ->].
    + split; [done|]. by apply prefix_app_r.
    + split; [by destruct p|done].
Qed.

Lemma existsb_isfile_false fs (l : list path) :
  existsb (isfile fs) l = false ↔ ∀ q, q ∈ l → files fs !! q = None.
Proof.
  induction l as [|x l IH]; cbn.
  - split; [|done]. intros _ q Hq. by apply elem_of_nil in Hq.
  - rewrite orb_false_iff, IH. unfold isfile.
    rewrite bool_decide_eq_false, <- eq_None_not_Some. split.
    + intros [Hx Hl] q [->|Hq]%elem_of_cons; auto.
    + intros Hall. split; [apply Hall; left|intros; apply Hall; by right].
Qed.

Lemma isdir_true fs p : isdir fs p = true ↔ p = [] ∨ p ∈ dirs fs.
Proof. unfold isdir. by rewrite bool_decide_eq_true. Qed.

Lemma isdir_false fs p : isdir fs p = false ↔ p ≠ [] ∧ p ∉ dirs fs.
Proof.
  unfold isdir. rewrite bool_decide_eq_false. split; [|tauto].
  intros H. split; intros ?; apply H; auto.
Qed.

Lemma isfile_false fs p : isfile fs p = false ↔ files fs !! p = None.
Proof.
  unfold isfile. by rewrite bool_decide_eq_false, <- eq_None_not_Some.
Qed.

Lemma join_not_nil p (name : string) : join p name ≠ [].
Proof. unfold join. by destruct p. Qed.

Lemma join_inj p q (a b : string) : join p a = join q b → p = q ∧ a = b.
Proof. unfold join. intros H. by apply app_inj_tail in H. Qed.

Lemma join_join_ne p (a b c : string) : join (join p a) b ≠ join p c.
Proof.
  unfold join. intros H%(f_equal length).
  rewrite !length_app in H. cbn in H. lia.
Qed.

Lemma removelast_join p (name : string) : removelast (join p name) = p.
Proof. unfold join. apply removelast_last. Qed.

Lemma listdir_isdir p fs :
  isdir fs p = true → ∃ l, listdir p fs = Ok l.
Proof. unfold listdir. intros ->. eauto. Qed.

Lemma wf_check_sound fs :
  wf_check fs = true → wf fs.
Proof.
  unfold wf_check. rewrite !andb_true_iff, !forallb_forall, negb_true_iff.
  intros [[Hparents Hdirs] Hroot]. split; [|split].
  - intros q p Hq%elem_of_elements%list_elem_of_In Hpre Hne.
    specialize (Hparents q Hq). rewrite forallb_forall in Hparents.
    assert (length p < length q)%nat as Hlen.
    { pose proof (prefix_length _ _ Hpre).
      destruct (decide (length p = length q)) as [Heq|]; [|lia].
      destruct Hne. apply prefix_length_eq; [done|lia]. }
    destruct Hpre as [k ->].
    rewrite <- (take_app_length p k) at 1.
    apply Hparents, list_elem_of_In, elem_of_seq. lia.
  - intros q Hq%elem_of_elements%list_elem_of_In.
    apply Hdirs, negb_true_iff in Hq. by apply isfile_false.
  - by apply bool_decide_eq_false in Hroot.
Qed.

(** What [listdir] reports: the sub-directories and the files. *)
Lemma listdir_files_subdirs p fs (l : list string) :
  wf fs → listdir p fs = Ok l → l ≡ₚ subdirs_in p fs ++ files_in p fs.
Proof.
  intros (_ & Hdisj & _). unfold listdir, subdirs_in, files_in, entries.
  destruct (isdir fs p); [|by destruct (isfile fs p)].
  intros [= <-]. rewrite <- omap_app. apply omap_Permutation.
  apply elements_disj_union. intros q Hq Hq'.
  apply elem_of_dom in Hq' as [x Hx]. rewrite (Hdisj q Hq) in Hx. done.
Qed.

Lemma elem_of_files_in p fs (name : string) :
  name ∈ files_in p fs ↔ isfile fs (join p name) = true.
Proof.
  unfold files_in, isfile. rewrite list_elem_of_omap, bool_decide_eq_true.
  split.
  - intros (q & Hq%elem_of_elements%elem_of_dom & ->%child_name_Some). done.
  - intros H. exists (join p name). split.
    + by apply elem_of_elements, elem_of_dom.
    + by apply child_name_Some.
Qed.

Lemma elem_of_subdirs_in p fs (name : string) :
  name ∈ subdirs_in p fs ↔ join p name ∈ dirs fs.
Proof.
  unfold subdirs_in. rewrite list_elem_of_omap. split.
  - intros (q & Hq%elem_of_elements & ->%child_name_Some). done.
  - intros H. exists (join p name). split.
    + by apply elem_of_elements.
    + by apply child_name_Some.
Qed.

End fs_facts.

(* ===================================================================== *)
(** * [create_image] *)
(* ===================================================================== *)

Section create_image_facts.
Import Rand Py FS TransferLearning.

Local Ltac rand_unfold :=
  unfold create_image, mbind, rand_bind, mret, rand_ret, randint;
  cbn [bind].

(** The images [create_image] can return. *)
Lemma create_image_supp (size : nat * nat) (shape : string) (img : image) :
  supp (create_image size shape) img ↔
  ∃ xy1 xy2 c1 c2 c3,
    (10 ≤ xy1 ≤ 40 ∧ 60 ≤ xy2 ≤ 100) ∧
    (0 ≤ c1 ≤ 200 ∧ 0 ≤ c2 ≤ 200 ∧ 0 ≤ c3 ≤ 200) ∧
    img = Image size (255, 255, 255)
            [if decide (shape = "circle") then
               ellipse [(xy1, xy1); (xy2, xy2)] (c1, c2, c3)
             else if decide (shape = "square") then
               rectangle [(xy1, xy1); (xy2, xy2)] (c1, c2, c3)
             else polygon [(xy1, xy1); (xy2, xy2); (xy2, xy1)] (c1, c2, c3)].
Proof.
  rand_unfold. cbn [supp]. split.
  - intros (xy1 & ? & xy2 & ? & c1 & ? & c2 & ? & c3 & ? & ->).
    exists xy1, xy2, c1, c2, c3. repeat split; try lia.
    by repeat case_decide.
  - intros (xy1 & xy2 & c1 & c2 & c3 & [? ?] & (? & ? & ?) & ->).
    exists xy1; split; [done|]. exists xy2; split; [done|].
    exists c1; split; [done|]. exists c2; split; [done|].
    exists c3; split; [done|]. by repeat case_decide.
Qed.

(** A seeded run returns one of the images of the support. *)
Lemma create_image_run_supp (size : nat * nat) (shape : string)
    (tape : nat → Z) (pos : nat) :
  supp (create_image size shape) (run (create_image size shape) tape pos).1.
Proof.
  rand_unfold. cbn [run supp fst].
  do 5 (eexists; split; [apply reduce_in_range; lia|]).
  reflexivity.
Qed.

Local Ltac skip_draw :=
  apply expect_Randint_const; [lia|]; intros ? _.

Local Ltac this_draw v :=
  match goal with
  | |- (expect (Randint ?lo ?hi _) _ == _)%Q =>
      transitivity (1 / inject_Z (hi - lo + 1))%Q; [|reflexivity];
      apply expect_Randint_point with (v := v); [lia|]; intros ? _
  end.

Local Ltac read_image :=
  cbn [expect]; unfold corner, channels, the_drawing;
  repeat case_decide; cbn in *; first [reflexivity | congruence].

Lemma create_image_corner1_uniform (size : nat * nat) (shape : string) (v : Z) :
  10 ≤ v ≤ 40 →
  (pr (create_image size shape)
      (λ img, bool_decide (corner 0 img = Some (v, v))) == 1 # 31)%Q.
Proof.
  intros Hv. unfold pr. rand_unfold.
  this_draw v. do 4 skip_draw. read_image.
Qed.

Lemma create_image_corner2_uniform (size : nat * nat) (shape : string) (v : Z) :
  60 ≤ v ≤ 100 →
  (pr (create_image size shape)
      (λ img, bool_decide (corner 1 img = Some (v, v))) == 1 # 41)%Q.
Proof.
  intros Hv. unfold pr. rand_unfold.
  skip_draw. this_draw v. do 3 skip_draw. read_image.
Qed.

Lemma create_image_channel_uniform (size : nat * nat) (shape : string)
    (n : nat) (v : Z) :
  (n < 3)%nat → 0 ≤ v ≤ 200 →
  (pr (create_image size shape)
      (λ img, bool_decide (channels img !! n = Some v)) == 1 # 201)%Q.
Proof.
  intros Hn Hv. unfold pr. rand_unfold.
  do 2 skip_draw.
  destruct n as [|[|[|n]]]; [| | |lia].
  - this_draw v. do 2 skip_draw. read_image.
  - skip_draw. this_draw v. skip_draw. read_image.
  - do 2 skip_draw. this_draw v. read_image.
Qed.

Lemma create_image_total (size : nat * nat) (shape : string) :
  (expect (create_image size shape) (λ _, 1) == 1)%Q.
Proof. rand_unfold. do 5 skip_draw. reflexivity. Qed.

(** A point in the bounding box of a list of points lies between the
    bounds of their coordinates. *)
Lemma in_box_bounds (xy : list point) (lo hi : Z) (px : point) :
  (∀ p, p ∈ xy → lo ≤ p.1 ≤ hi ∧ lo ≤ p.2 ≤ hi) →
  in_box xy px → lo ≤ px.1 ≤ hi ∧ lo ≤ px.2 ≤ hi.
Proof.
  intros Hxy [(p & q & Hp%Hxy & Hq%Hxy & ?) (p' & q' & Hp'%Hxy & Hq'%Hxy & ?)].
  lia.
Qed.

(** The coordinates [create_image] hands to PIL are [xy1] and [xy2]. *)
Lemma create_image_box (size : nat * nat) (shape : string) (xy1 xy2 : Z)
    (col : color) (d : drawing) (px : point) :
  d = (if decide (shape = "circle") then
         ellipse [(xy1, xy1); (xy2, xy2)] col
       else if decide (shape = "square") then
         rectangle [(xy1, xy1); (xy2, xy2)] col
       else polygon [(xy1, xy1); (xy2, xy2); (xy2, xy1)] col) →
  xy1 ≤ xy2 →
  in_box (xy_of d) px → xy1 ≤ px.1 ≤ xy2 ∧ xy1 ≤ px.2 ≤ xy2.
Proof.
  intros -> Hle. apply in_box_bounds. intros p Hp.
  repeat case_decide; cbn in Hp;
    repeat (apply elem_of_cons in Hp as [->|Hp]; [cbn; lia|]);
    by apply elem_of_nil in Hp.
Qed.

(** C6, as amended: for every image size and shape label, [create_image]
    always returns (its outcomes have total probability 1 and a seeded run
    yields one of them); every image it can return has the requested
    size, a white (255,255,255) background and exactly one drawing call
    of a filled shape, whose first corner [(xy1,xy1)] has [xy1] in
    [10,40], whose second corner [(xy2,xy2)] has [xy2] in [60,100] (so
    the shape extends over at least 20 pixels) and whose fill colour has
    its three channels in [0,200]; [xy1], [xy2] and each channel are
    uniform over their range: each value has probability 1/31, 1/41 and
    1/201.  The corners are pixel positions, not scaled to the size: the
    raster is painted only between [xy1] and [xy2]; the box of the shape
    lies wholly on the canvas when both dimensions exceed [xy2], and no
    pixel of the raster is painted when a dimension is [xy1] or less. *)
Theorem create_image_contract (size : nat * nat) (shape : string) :
  ((expect (create_image size shape) (λ _, 1) == 1)%Q
   ∧ ∀ tape pos,
       supp (create_image size shape)
            (run (create_image size shape) tape pos).1)
  ∧ (∀ img, supp (create_image size shape) img →
       size_of img = size
       ∧ background_of img = (255, 255, 255)
       ∧ ∃ d xy1 xy2 c1 c2 c3,
           drawn_of img = [d]
           ∧ take 2 (xy_of d) = [(xy1, xy1); (xy2, xy2)]
           ∧ fill_of d = (c1, c2, c3)
           ∧ (10 ≤ xy1 ≤ 40 ∧ 60 ≤ xy2 ≤ 100 ∧ 20 ≤ xy2 - xy1)
           ∧ (0 ≤ c1 ≤ 200 ∧ 0 ≤ c2 ≤ 200 ∧ 0 ≤ c3 ≤ 200)
           ∧ (∀ px, can_paint img px →
                xy1 ≤ px.1 ≤ xy2 ∧ xy1 ≤ px.2 ≤ xy2)
           ∧ (xy2 < Z.of_nat size.1 ∧ xy2 < Z.of_nat size.2 →
              ∀ px, in_box (xy_of d) px → on_canvas size px)
           ∧ (Z.of_nat size.1 ≤ xy1 ∨ Z.of_nat size.2 ≤ xy1 →
              ∀ px, ¬ can_paint img px))
  ∧ (∀ v, 10 ≤ v ≤ 40 →
       (pr (create_image size shape)
           (λ img, bool_decide (corner 0 img = Some (v, v))) == 1 # 31)%Q)
  ∧ (∀ v, 60 ≤ v ≤ 100 →
       (pr (create_image size shape)
           (λ img, bool_decide (corner 1 img = Some (v, v))) == 1 # 41)%Q)
  ∧ (∀ n v, (n < 3)%nat → 0 ≤ v ≤ 200 →
       (pr (create_image size shape)
           (λ img, bool_decide (channels img !! n = Some v)) == 1 # 201)%Q).
Proof.
  split; [split; [apply create_image_total|apply create_image_run_supp]|].
  split; [|split; [|split]].
  - intros img (xy1 & xy2 & c1 & c2 & c3 & [? ?] & (? & ? & ?) & ->)
      %create_image_supp.
    do 2 (split; [reflexivity|]).
    set (d := if decide (shape = "circle") then
                ellipse [(xy1, xy1); (xy2, xy2)] (c1, c2, c3)
              else if decide (shape = "square") then
                rectangle [(xy1, xy1); (xy2, xy2)] (c1, c2, c3)
              else polygon [(xy1, xy1); (xy2, xy2); (xy2, xy1)]
                           (c1, c2, c3)).
    exists d, xy1, xy2, c1, c2, c3. split; [reflexivity|].
    assert (∀ px, in_box (xy_of d) px →
                  xy1 ≤ px.1 ≤ xy2 ∧ xy1 ≤ px.2 ≤ xy2) as Hbox.
    { intros px.
      apply (create_image_box size shape xy1 xy2 (c1, c2, c3)); [done|lia]. }
    split; [unfold d; by repeat case_decide|].
    split; [unfold d; by repeat case_decide|].
    split; [lia|]. split; [lia|].
    assert (∀ px, can_paint (Image size (255, 255, 255) [d]) px →
                  on_canvas size px
                  ∧ xy1 ≤ px.1 ≤ xy2 ∧ xy1 ≤ px.2 ≤ xy2) as Hpaint.
    { intros px [Hon (d' & Hd & Hin)]. cbn in Hd.
      apply list_elem_of_singleton in Hd as ->. split; [done|].
      by apply Hbox. }
    split; [|split].
    + intros px Hpx%Hpaint. tauto.
    + intros Hsize px Hin%Hbox. unfold on_canvas. lia.
    + intros Hsize px Hpx%Hpaint. unfold on_canvas in Hpx. lia.
  - intros. by apply create_image_corner1_uniform.
  - intros. by apply create_image_corner2_uniform.
  - intros. by apply create_image_channel_uniform.
Qed.

(** C6, as stated, fails on a small canvas: asked for a 10 x 10 image
    of a square, [create_image] succeeds and returns a raster of that
    size on which no pixel is painted, the shape being drawn from pixel
    10 on: the raster is entirely white. *)
Lemma tiny_canvas_stays_white :
  (∃ img, supp (create_image (10%nat, 10%nat) "square") img)
  ∧ ∀ img, supp (create_image (10%nat, 10%nat) "square") img →
      size_of img = (10%nat, 10%nat)
      ∧ (∃ d, drawn_of img = [d])
      ∧ ∀ px, ¬ can_paint img px.
Proof.
  split.
  { eexists. apply (create_image_run_supp _ _ (λ _, 0) 0%nat). }
  intros img (xy1 & xy2 & c1 & c2 & c3 & [? ?] & _ & ->)%create_image_supp.
  split; [done|]. split; [by eexists|].
  intros px [Hon (d & Hd & Hin)]. cbn in Hd.
  apply list_elem_of_singleton in Hd as ->.
  apply (create_image_box (10%nat, 10%nat) "square" xy1 xy2 (c1, c2, c3))
    in Hin; [|done|lia].
  unfold on_canvas in Hon. cbn in Hon. lia.
Qed.

(** C10: for every shape label other than 'circle' and 'square',
    [create_image] is the very computation it is for 'triangle': it
    always returns, and every image it can return holds one filled polygon
    on the three vertices (xy1,xy1), (xy2,xy2), (xy2,xy1) with xy1 < xy2,
    a triangle that is not flat. *)
Theorem create_image_else_triangle (size : nat * nat) (shape : string) :
  shape ≠ "circle" → shape ≠ "square" →
  create_image size shape = create_image size "triangle"
  ∧ (expect (create_image size shape) (λ _, 1) == 1)%Q
  ∧ ∀ img, supp (create_image size shape) img →
      ∃ xy1 xy2 col,
        drawn_of img = [polygon [(xy1, xy1); (xy2, xy2); (xy2, xy1)] col]
        ∧ xy1 < xy2.
Proof.
  intros Hc Hs. split; [|split].
  - unfold create_image.
    destruct (decide (shape = "circle")) as [?|_]; [done|].
    destruct (decide (shape = "square")) as [?|_]; [done|].
    reflexivity.
  - apply create_image_total.
  - intros img (xy1 & xy2 & c1 & c2 & c3 & [? ?] & _ & ->)%create_image_supp.
    exists xy1, xy2, (c1, c2, c3). split; [|lia].
    by repeat case_decide.
Qed.

Lemma create_image_else_triangle_witness :
  create_image (224%nat, 224%nat) "hexagon"
  = create_image (224%nat, 224%nat) "triangle"
  ∧ (expect (create_image (224%nat, 224%nat) "hexagon") (λ _, 1) == 1)%Q
  ∧ ∀ img, supp (create_image (224%nat, 224%nat) "hexagon") img →
      ∃ xy1 xy2 col,
        drawn_of img = [polygon [(xy1, xy1); (xy2, xy2); (xy2, xy1)] col]
        ∧ xy1 < xy2.
Proof.
  apply (create_image_else_triangle (224%nat, 224%nat) "hexagon");
    discriminate.
Defined.

End create_image_facts.

(* ===================================================================== *)
(** * The segmentation dataset *)
(* ===================================================================== *)

Section dataset_facts.
Import Rand Py FS UNet UNet.PlaneDataSet.

(** The two tests [rand > 1] of [__getitem__] read the same draw. *)
Lemma getitem_with_paired (convert_L : Q → Q) (fs : filesystem gray)
    (self : t) (index : nat) (rand : Z) :
  getitem_with convert_L fs self index rand
  = paired_access convert_L fs self index (bool_decide (rand > 1)).
Proof.
  unfold getitem_with, paired_access, mbind, result_bind, mret, result_ret.
  destruct (list_get (filenames self) index); [|done].
  destruct (imread fs (join (image_path self) _)); [|done].
  destruct (imread fs (join (mask_path self) _)); [|done].
  by destruct (bool_decide (rand > 1)).
Qed.

(** C3: whatever an access returns, it is the pair obtained by applying
    the mirror to both the image and the mask, or the pair obtained by
    applying it to neither: the two share one flip decision. *)
Theorem getitem_shares_flip (convert_L : Q → Q) (fs : filesystem gray)
    (self : t) (index : nat) (out : result (tensor * tensor)) :
  supp (__getitem__ convert_L fs self index) out →
  ∃ mirror : bool, out = paired_access convert_L fs self index mirror.
Proof.
  intros (rand & _ & ->). eexists. apply getitem_with_paired.
Qed.

Lemma getitem_shares_flip_witness :
  ∃ mirror : bool,
    getitem_with (λ v, v) Examples.planes_fs Examples.planes 0 2
    = paired_access (λ v, v) Examples.planes_fs Examples.planes 0 mirror.
Proof.
  apply (getitem_shares_flip (λ v, v) Examples.planes_fs Examples.planes 0).
  exists 2. split; [lia|reflexivity].
Defined.

(** C1: an access returns the mirrored pair with probability 1/3 and the
    unmirrored pair with probability 2/3: the flip is made for one of the
    three values [randint(0, 2)] can take, not half the time. *)
Theorem getitem_flip_probability (convert_L : Q → Q) (fs : filesystem gray)
    (self : t) (index : nat) (P : result (tensor * tensor) → bool) :
  (pr (__getitem__ convert_L fs self index) P
   == (2 # 3) * indicator (P (paired_access convert_L fs self index false))
      + (1 # 3) * indicator (P (paired_access convert_L fs self index true)))%Q.
Proof.
  unfold pr, __getitem__, mbind, rand_bind, mret, rand_ret, randint.
  cbn [bind expect].
  change (outcomes 0 2) with [0; 1; 2]. cbn [map Qsum foldr].
  rewrite !getitem_with_paired.
  change (bool_decide (0 > 1)) with false.
  change (bool_decide (1 > 1)) with false.
  change (bool_decide (2 > 1)) with true.
  change (inject_Z (2 - 0 + 1)) with (3 # 1)%Q.
  field.
Qed.

(** C7, as amended: on a well-formed disk, a dataset built on a mask
    directory reports as its length the number of entries of that
    directory, its files and its sub-folders together, whatever the image
    directory holds; the length is the number of mask files exactly when
    the mask directory has no sub-folder, and then it is the length of any
    duplicate-free list of the names of the mask files. *)
Theorem dataset_len_counts_masks (fs : filesystem gray)
    (image_path mask_path : path) :
  wf fs → isdir fs mask_path = true →
  ∃ self,
    __init__ fs image_path mask_path = Ok self
    ∧ NoDup (filenames self)
    ∧ (∀ name, name ∈ filenames self ↔ join mask_path name ∈ entries fs)
    ∧ __len__ self
      = (length (files_in mask_path fs) + length (subdirs_in mask_path fs))%nat
    ∧ (∀ name, name ∈ files_in mask_path fs
               ↔ isfile fs (join mask_path name) = true)
    ∧ (∀ name, name ∈ subdirs_in mask_path fs
               ↔ join mask_path name ∈ dirs fs)
    ∧ (__len__ self = length (files_in mask_path fs)
       ↔ subdirs_in mask_path fs = [])
    ∧ ∀ names : list string,
        subdirs_in mask_path fs = [] →
        NoDup names →
        (∀ name, isfile fs (join mask_path name) = true ↔ name ∈ names) →
        __len__ self = length names.
Proof.
  intros Hwf [l Hl]%listdir_isdir.
  destruct (listdir_Ok _ _ _ Hl) as [Hnd Hin].
  pose proof (listdir_files_subdirs _ _ _ Hwf Hl) as Hperm.
  exists (Make image_path mask_path l). split.
  { unfold __init__. by rewrite Hl. }
  do 2 (split; [done|]).
  assert (length l = (length (files_in mask_path fs)
                      + length (subdirs_in mask_path fs))%nat) as Hlen.
  { rewrite (Permutation_length Hperm), length_app. lia. }
  split; [done|].
  split; [apply elem_of_files_in|]. split; [apply elem_of_subdirs_in|].
  unfold __len__. cbn [filenames]. split.
  { rewrite Hlen. split.
    - intros H. apply length_zero_iff_nil. lia.
    - intros ->. cbn. lia. }
  intros names Hnone Hnames Hsame.
  rewrite Hnone, app_nil_l in Hperm.
  rewrite (Permutation_length Hperm).
  apply Permutation_length, NoDup_Permutation; [|done|].
  - by rewrite <- Hperm.
  - intros name. by rewrite elem_of_files_in, Hsame.
Qed.

Lemma dataset_len_counts_masks_witness :
  ∃ self,
    __init__ Examples.planes_fs ["image"] ["mask"] = Ok self
    ∧ NoDup (filenames self)
    ∧ (∀ name, name ∈ filenames self
               ↔ join ["mask"] name ∈ entries Examples.planes_fs)
    ∧ __len__ self
      = (length (files_in ["mask"] Examples.planes_fs)
         + length (subdirs_in ["mask"] Examples.planes_fs))%nat
    ∧ (∀ name, name ∈ files_in ["mask"] Examples.planes_fs
               ↔ isfile Examples.planes_fs (join ["mask"] name) = true)
    ∧ (∀ name, name ∈ subdirs_in ["mask"] Examples.planes_fs
               ↔ join ["mask"] name ∈ dirs Examples.planes_fs)
    ∧ (__len__ self = length (files_in ["mask"] Examples.planes_fs)
       ↔ subdirs_in ["mask"] Examples.planes_fs = [])
    ∧ ∀ names : list string,
        subdirs_in ["mask"] Examples.planes_fs = [] →
        NoDup names →
        (∀ name, isfile Examples.planes_fs (join ["mask"] name) = true
                 ↔ name ∈ names) →
        __len__ self = length names.
Proof.
  apply (dataset_len_counts_masks Examples.planes_fs ["image"] ["mask"]).
  - apply wf_check_sound. by vm_compute.
  - by vm_compute.
Defined.

(** C7, as stated, fails when the mask directory holds a sub-folder: with
    two masks and the folder a notebook leaves behind, the two masks have
    their images, and the dataset reports the length 3. *)
Lemma subfolder_counts_as_a_mask :
  wf Examples.checkpointed_fs
  ∧ ∃ self,
      __init__ Examples.checkpointed_fs ["image"] ["mask"] = Ok self
      ∧ length (files_in ["mask"] Examples.checkpointed_fs) = 2%nat
      ∧ files_in ["image"] Examples.checkpointed_fs
        = files_in ["mask"] Examples.checkpointed_fs
      ∧ __len__ self = 3%nat
      ∧ __len__ self ≠ length (files_in ["mask"] Examples.checkpointed_fs).
Proof.
  split; [apply wf_check_sound; by vm_compute|].
  eexists. split; [by vm_compute|].
  split; [by vm_compute|]. split; [by vm_compute|]. split; [by vm_compute|].
  vm_compute. discriminate.
Qed.

End dataset_facts.

(* ===================================================================== *)
(** * The training loop *)
(* ===================================================================== *)

Section train_facts.
Import Py UNet.
Context {net datum target output : Type}.
Variable forward : net → list datum → output.
Variable loss_criteria : output → list target → Q.
Variable backward_step : net → list datum → list target → net.

(** C9, on an epoch of one batch: with the two samples of a dataset in a
    single batch of the loader of [load_data], [train] accumulates that
    batch's loss alone and reports it divided by 2, the number of samples,
    although a single loss was accumulated. *)
Theorem train_divides_by_samples (model : net) (s1 s2 : datum * target) :
  batch_losses forward loss_criteria backward_step model (load_data [s1; s2])
  = [loss_criteria (forward model [s1.1; s2.1]) [s1.2; s2.2]]
  ∧ train forward loss_criteria backward_step model (load_data [s1; s2])
    = Ok ((0 + loss_criteria (forward model [s1.1; s2.1]) [s1.2; s2.2])
            / inject_Z 2,
          backward_step model [s1.1; s2.1] [s1.2; s2.2])%Q.
Proof. split; reflexivity. Qed.

(** The loader of [load_data] leaves no sample out. *)
Lemma chunks_concat (fuel n : nat) (l : list (datum * target)) :
  (0 < n)%nat → (length l ≤ fuel)%nat → concat (chunks fuel n l) = l.
Proof.
  intros Hn. revert l. induction fuel as [|fuel IH]; intros l Hl.
  { destruct l; [done|cbn in Hl; lia]. }
  destruct l as [|x l]; [done|]. cbn [chunks concat].
  rewrite IH; [apply take_drop|].
  rewrite length_drop. cbn [length] in *. lia.
Qed.

End train_facts.

(* ===================================================================== *)
(** * Prediction *)
(* ===================================================================== *)

Section predict_facts.
Import Py TransferLearning.

Lemma argmax_from_first_max (pre l : list Q) (best_i : nat) (best : Q) :
  first_max pre best_i best →
  ∃ m, first_max (pre ++ l) (argmax_from l (length pre) best_i best) m.
Proof.
  revert pre best_i best.
  induction l as [|x l IH]; intros pre best_i best Hmax.
  { rewrite app_nil_r. by exists best. }
  cbn [argmax_from].
  replace (pre ++ x :: l) with ((pre ++ [x]) ++ l) by by rewrite <- app_assoc.
  replace (S (length pre)) with (length (pre ++ [x]))
    by (rewrite length_app; cbn; lia).
  destruct Hmax as (Hat & Hle & Hlt).
  pose proof (lookup_lt_Some _ _ _ Hat) as Hbi.
  destruct (Qle_bool x best) eqn:Hx; apply IH; (split; [|split]).
  - by rewrite lookup_app_l.
  - intros k y. destruct (decide (k < length pre)%nat).
    + rewrite lookup_app_l by done. apply Hle.
    + rewrite lookup_app_r by lia. intros Hk.
      destruct (k - length pre)%nat; [|done].
      injection Hk as <-. by apply Qle_bool_iff.
  - intros k y Hk. rewrite lookup_app_l by lia. by apply Hlt.
  - rewrite lookup_app_r by lia. by rewrite Nat.sub_diag.
  - assert (best < x)%Q as Hbx.
    { apply Qnot_le_lt. intros ?%Qle_bool_iff. congruence. }
    intros k y. destruct (decide (k < length pre)%nat).
    + rewrite lookup_app_l by done. intros Hy%Hle.
      apply Qlt_le_weak. by eapply Qle_lt_trans.
    + rewrite lookup_app_r by lia. intros Hk.
      destruct (k - length pre)%nat; [|done].
      injection Hk as <-. apply Qle_refl.
  - assert (best < x)%Q as Hbx.
    { apply Qnot_le_lt. intros ?%Qle_bool_iff. congruence. }
    intros k y Hk. rewrite lookup_app_l by done. intros Hy%Hle.
    by eapply Qle_lt_trans.
Qed.

Lemma np_argmax_first_max (l : list Q) :
  l ≠ [] → ∃ idx m, np_argmax l = Ok idx ∧ first_max l idx m.
Proof.
  destruct l as [|x l]; [done|]. intros _.
  destruct (argmax_from_first_max [x] l 0 x) as [m Hm].
  { split; [done|]. split.
    - intros [|k] y; [|done]. intros [= <-]. apply Qle_refl.
    - intros k y Hk. lia. }
  eauto.
Qed.

Lemma for_each_Ok {A B : Type} (f : A → result B) (R : A → B → Prop)
    (l : list A) :
  (∀ x, x ∈ l → ∃ y, f x = Ok y ∧ R x y) →
  ∃ ys, for_each f l = Ok ys ∧ Forall2 R l ys.
Proof.
  induction l as [|x l IH]; intros Hf; [by exists []|].
  destruct (Hf x) as (y & Hy & HR); [left|].
  destruct IH as (ys & Hys & HF); [intros; apply Hf; by right|].
  exists (y :: ys). split; [|by constructor].
  cbn. rewrite Hy. cbn. rewrite Hys. done.
Qed.

(** C8, as amended: for a classifier that outputs one vector of class
    probabilities per image, when on the batch at hand every vector is
    non-empty and has its (first) largest probability at index 0, 1 or 2,
    [predict_image] returns one label per image, and the label of an image
    is the element of ['circle', 'square', 'triangle'] at the index of the
    first largest probability predicted for it. *)
Theorem predict_image_labels (classifier : classifier)
    (image_array : list (list Q)) :
  (∀ x, length (predict classifier x) = length x) →
  (∀ p, p ∈ predict classifier (map (map (λ v, v / 255)%Q) image_array) →
        p ≠ [] ∧ ∀ idx m, first_max p idx m → (idx < 3)%nat) →
  ∃ labels,
    predict_image classifier image_array = Ok labels
    ∧ length labels = length image_array
    ∧ ∀ j prediction,
        predict classifier (map (map (λ v, v / 255)%Q) image_array) !! j
        = Some prediction →
        ∃ idx m,
          first_max prediction idx m
          ∧ labels !! j = ["circle"; "square"; "triangle"] !! idx
          ∧ is_Some (labels !! j).
Proof.
  intros Hrows Hcols. unfold predict_image.
  set (predictions := predict classifier _) in *.
  destruct (for_each_Ok
    (λ prediction, class_idx ← np_argmax prediction;
                   list_get ["circle"; "square"; "triangle"] class_idx)
    (λ prediction label, ∃ idx m,
       first_max prediction idx m
       ∧ Some label = ["circle"; "square"; "triangle"] !! idx)
    predictions) as (labels & Hlabels & HF).
  { intros prediction Hin. destruct (Hcols _ Hin) as [Hne Hbelow].
    destruct (np_argmax_first_max prediction Hne) as (idx & m & Hidx & Hmax).
    pose proof (Hbelow _ _ Hmax) as Hlt.
    destruct (lookup_lt_is_Some_2 ["circle"; "square"; "triangle"] idx Hlt)
      as [label Hlabel].
    exists label. split; [|by exists idx, m].
    unfold mbind, result_bind, list_get. by rewrite Hidx, Hlabel. }
  exists labels. split; [done|]. split.
  { rewrite <- (Forall2_length _ _ _ HF). unfold predictions.
    by rewrite Hrows, length_map. }
  intros j prediction Hj.
  destruct (Forall2_lookup_l _ _ _ _ _ HF Hj)
    as (label & Hlabel & idx & m & Hmax & Hidx).
  exists idx, m. rewrite Hlabel. eauto.
Qed.

Lemma predict_image_labels_witness :
  ∃ labels,
    predict_image Examples.square_fan [[0; 255]; [128; 64]]%Q = Ok labels
    ∧ length labels = 2%nat
    ∧ ∀ j prediction,
        predict Examples.square_fan
                (map (map (λ v, v / 255)%Q) [[0; 255]; [128; 64]]%Q) !! j
        = Some prediction →
        ∃ idx m,
          first_max prediction idx m
          ∧ labels !! j = ["circle"; "square"; "triangle"] !! idx
          ∧ is_Some (labels !! j).
Proof.
  apply (predict_image_labels Examples.square_fan [[0; 255]; [128; 64]]%Q).
  - intros x. apply length_map.
  - intros p (? & -> & _)%list_elem_of_fmap. split; [done|].
    intros idx m [Hat%lookup_lt_Some _]. cbn in Hat. lia.
Defined.

(** C8, as stated, fails for a classifier trained on more classes than
    the three of the list: with one vector of four probabilities per
    image, the largest of them in the fourth place, [predict_image] fails
    with IndexError and returns no label. *)
Lemma fourth_class_has_no_label :
  (∀ x, length (predict Examples.four_way x) = length x)
  ∧ (∀ labels,
       predict_image Examples.four_way [[0; 255]; [128; 64]]%Q ≠ Ok labels)
  ∧ predict_image Examples.four_way [[0; 255]; [128; 64]]%Q = Raise IndexError.
Proof.
  split; [intros x; apply length_map|]. split; [|by vm_compute].
  intros labels H. vm_compute in H. discriminate H.
Qed.

End predict_facts.

(* ===================================================================== *)
(** * [generate_image_data] *)
(* ===================================================================== *)

Section generate_facts.
Import Rand Py FS TransferLearning.
Implicit Types (w : world) (img_dir p q : path) (c : string).

Local Ltac unfold_M :=
  unfold mbind, M_bind, mret, M_ret, os_path_exists, os_makedirs, on_fs,
    print, raise, try_except in *.

(** The class folder is there once the loop has looked for it. *)
Lemma ensure_folder {A : Type} img_dir c (k : M A) w :
  loop_inv img_dir w →
  (present ← os_path_exists (join img_dir c);
   _ ← (if negb present then os_makedirs (join img_dir c) else mret tt);
   k) w
  = k (set_fs (Filesystem (dirs (w_fs w) ∪ {[join img_dir c]})
                          (files (w_fs w))) w).
Proof.
  intros (Hne & Hanc & Hdf & Hcf & Hid). unfold_M.
  destruct (path_exists (w_fs w) (join img_dir c)) eqn:Hex; cbn.
  - f_equal. destruct w as [[d f] ? ? ? ? ? ?]; cbn in *.
    unfold set_fs; cbn. do 2 f_equal.
    apply orb_true_iff in Hex as [Hd|Hf].
    + apply isdir_true in Hd as [Hd|Hd]; [by apply join_not_nil in Hd|].
      cbn in Hd. apply set_eq. intros q.
      rewrite elem_of_union, elem_of_singleton.
      split; [auto|intros [?| ->]; auto].
    + unfold isfile in Hf. apply bool_decide_eq_true in Hf. cbn in Hf.
      rewrite Hcf in Hf. by destruct Hf.
  - unfold makedirs. rewrite Hex.
    replace (existsb (isfile (w_fs w)) (ancestors (join img_dir c)))
      with false.
    2:{ symmetry. apply existsb_isfile_false.
        intros q [Hq| ->]%ancestors_join; [auto|done]. }
    f_equal. unfold set_fs. cbn. do 2 f_equal.
    apply set_eq. intros q.
    rewrite !elem_of_union, elem_of_list_to_set, ancestors_join,
      elem_of_singleton.
    specialize (Hanc q). tauto.
Qed.

(** One attempt at saving, on a path that can be written. *)
Lemma Image_save_outcome (img : image) p w :
  isdir (w_fs w) p = false →
  isdir (w_fs w) (removelast p) = true →
  Image_save img p w
  = if w_disk_ok w (length (w_saves w)) then
      (Ok tt,
       World (Filesystem (dirs (w_fs w)) (<[p := img]> (files (w_fs w))))
             (w_stdin w) (w_stdout w) (w_tape w) (w_pos w) (w_disk_ok w)
             (w_saves w ++ [(p, true)]))
    else
      (Raise OSError,
       World (w_fs w) (w_stdin w) (w_stdout w) (w_tape w) (w_pos w)
             (w_disk_ok w) (w_saves w ++ [(p, false)])).
Proof.
  intros Hp Hparent. unfold Image_save, write_file.
  by rewrite Hp, Hparent.
Qed.

(** A pass of the inner loop always completes, whatever the disk does
    to the two save attempts. *)
Lemma save_class_image_ok (size : nat * nat) img_dir (i : Z) c w :
  loop_inv img_dir w →
  save_class_image size img_dir i c w
  = (Ok tt, make_world size img_dir i c w).
Proof.
  intros Hinv. unfold save_class_image.
  unfold mbind at 1. unfold M_bind at 1.
  unfold draw_from_world at 1. unfold make_world.
  destruct (run (create_image size c) (w_tape w) (w_pos w)) as [img pos'].
  set (w0 := World (w_fs w) _ _ _ pos' _ _).
  assert (loop_inv img_dir w0) as Hinv0 by done.
  rewrite ensure_folder by done.
  destruct Hinv as (Hne & Hanc & Hdf & Hcf & Hid).
  set (w1 := set_fs _ w0).
  fold (image_file img_dir c i). set (p := image_file img_dir c i).
  assert (isdir (w_fs w1) p = false) as Hp.
  { apply isdir_false. split; [apply join_not_nil|]. cbn.
    rewrite elem_of_union, elem_of_singleton.
    intros [Hd|Hd]; [by apply Hid in Hd|by apply join_join_ne in Hd]. }
  assert (isdir (w_fs w1) (removelast p) = true) as Hparent.
  { unfold p, image_file. rewrite removelast_join.
    apply isdir_true. right. cbn. set_solver. }
  unfold try_except at 1. rewrite Image_save_outcome by done.
  cbn [w1 w0 set_fs w_disk_ok w_saves w_fs w_stdin w_stdout w_tape w_pos
       fst snd dirs files].
  destruct (w_disk_ok w (length (w_saves w))); [done|].
  unfold try_except at 1. rewrite Image_save_outcome by done.
  cbn [w_disk_ok w_saves w_fs w_stdin w_stdout w_tape w_pos dirs files].
  rewrite length_app. cbn [length]. rewrite Nat.add_1_r.
  destruct (w_disk_ok w (S (length (w_saves w)))).
  - by rewrite <- app_assoc.
  - unfold print. cbn. by rewrite <- app_assoc.
Qed.

Lemma make_world_inv (size : nat * nat) img_dir (i : Z) c w :
  loop_inv img_dir w → loop_inv img_dir (make_world size img_dir i c w).
Proof.
  intros (Hne & Hanc & Hdf & Hcf & Hid).
  assert (∀ (f : gmap path image) img,
    let fs' := Filesystem (dirs (w_fs w) ∪ {[join img_dir c]}) f in
    (f = files (w_fs w) ∨ f = <[image_file img_dir c i := img]> (files (w_fs w))) →
    img_dir ≠ []
    ∧ (∀ q, q ∈ ancestors img_dir → q ∈ dirs fs')
    ∧ (∀ q, q ∈ dirs fs' → files fs' !! q = None)
    ∧ (∀ c', files fs' !! join img_dir c' = None)
    ∧ (∀ c' name, join (join img_dir c') name ∉ dirs fs')) as Hfs.
  { intros f img fs' Hf. cbn. split; [done|]. split; [|split; [|split]].
    - intros q Hq. apply elem_of_union. left. by apply Hanc.
    - intros q [Hq| ->%elem_of_singleton]%elem_of_union;
        destruct Hf as [-> | ->]; auto.
      + rewrite lookup_insert_ne; [auto|].
        intros <-. by apply Hid in Hq.
      + rewrite lookup_insert_ne; [auto|]. apply join_join_ne.
    - intros c'. destruct Hf as [-> | ->]; [auto|].
      rewrite lookup_insert_ne; [auto|]. apply join_join_ne.
    - intros c' name [Hq|Hq%elem_of_singleton]%elem_of_union.
      + by apply Hid in Hq.
      + by apply join_join_ne in Hq. }
  unfold make_world, loop_inv.
  set (img := (run (create_image size c) (w_tape w) (w_pos w)).1).
  repeat case_match; cbn [w_fs]; apply (Hfs _ img); auto.
Qed.

Lemma announce_world_inv (classes : list string) (cases i : Z) img_dir w :
  loop_inv img_dir w → loop_inv img_dir (announce_world classes cases i w).
Proof. unfold announce_world. by case_decide. Qed.

(** The inner loop completes. *)
Lemma for_in_classes_ok (all classes : list string) (size : nat * nat)
    (cases : Z) img_dir (i : Z) w :
  loop_inv img_dir w →
  for_in classes (save_class_image size img_dir i) w
  = (Ok tt, foldl (step_world all size cases img_dir) w (map (Make i) classes))
  ∧ loop_inv img_dir
      (foldl (step_world all size cases img_dir) w (map (Make i) classes)).
Proof.
  revert w. induction classes as [|c classes IH]; intros w Hinv; [done|].
  cbn [for_in map foldl step_world].
  unfold mbind, M_bind. rewrite save_class_image_ok by done.
  apply IH. by apply make_world_inv.
Qed.

Lemma ceil_div_lt (a b i : Z) : 0 < b → i * b < a ↔ i < ceil_div a b.
Proof.
  intros Hb. unfold ceil_div. split; intros Hi.
  - assert (i + 1 ≤ (a + b - 1) / b); [|lia].
    apply Z.div_le_lower_bound; lia.
  - pose proof (Z.mul_div_le (a + b - 1) b Hb). nia.
Qed.

(** [ceil_div a b] is the least integer not below [a / b]. *)
Lemma ceil_div_spec (a b : Z) :
  0 < b → (ceil_div a b - 1) * b < a ≤ ceil_div a b * b.
Proof.
  intros Hb. split.
  - apply ceil_div_lt; lia.
  - destruct (Z.le_gt_cases a (ceil_div a b * b)) as [|Hlt]; [done|].
    apply ceil_div_lt in Hlt; lia.
Qed.

Lemma rounds_bound (classes : list string) (cases : Z) :
  classes ≠ [] → 0 ≤ rounds classes cases ≤ Z.max 0 (cases - 1).
Proof.
  intros Hc. unfold rounds. split; [lia|].
  assert (0 < Z.of_nat (length classes)) as HN by (destruct classes; cbn; [done|lia]).
  pose proof (ceil_div_spec (cases - 1) _ HN). nia.
Qed.

Lemma loop_test_ok (classes : list string) (cases i : Z) w :
  classes ≠ [] → 0 ≤ i →
  loop_test classes cases i w
  = (Ok (bool_decide (i < rounds classes cases)), w).
Proof.
  intros Hc Hi. unfold loop_test.
  case_decide as Hlen; [by destruct classes|].
  unfold mret, M_ret. do 2 f_equal. apply bool_decide_ext.
  rewrite ceil_div_lt by lia. unfold rounds. lia.
Qed.

(** A round of the loop completes. *)
Lemma loop_body_ok (classes : list string) (size : nat * nat) (cases : Z)
    img_dir (i : Z) w :
  cases ≠ 0 → loop_inv img_dir w →
  loop_body classes size cases img_dir i w
  = (Ok (i + 1),
     foldl (step_world classes size cases img_dir) w (round_steps classes i))
  ∧ loop_inv img_dir
      (foldl (step_world classes size cases img_dir) w (round_steps classes i)).
Proof.
  intros Hcases Hinv. unfold loop_body, round_steps.
  cbn [foldl step_world].
  pose proof (announce_world_inv classes cases i img_dir w Hinv) as Hinv'.
  destruct (for_in_classes_ok classes classes size cases img_dir (i + 1)
              _ Hinv') as [Hfor Hinv''].
  split; [|done].
  unfold mbind at 1, M_bind at 1.
  replace ((if decide (i `mod` 25 = 0)
            then if decide (cases = 0) then raise ZeroDivisionError
                 else print (Progress (i * Z.of_nat (length classes)) cases)
            else mret ()) w)
    with (Ok tt, announce_world classes cases i w).
  2:{ unfold announce_world. case_decide; [|done]. by case_decide. }
  unfold mbind, M_bind. by rewrite Hfor.
Qed.

(** The loop ends, after [rounds] rounds. *)
Lemma while_loop_ok (classes : list string) (size : nat * nat) (cases : Z)
    img_dir (n fuel : nat) (i : Z) w :
  classes ≠ [] → 0 ≤ i → loop_inv img_dir w →
  n = Z.to_nat (rounds classes cases - i) → (n < fuel)%nat →
  while_loop fuel classes size cases img_dir i w
  = Some (Ok tt,
          foldl (step_world classes size cases img_dir) w
                (loop_steps classes i n)).
Proof.
  intros Hc. revert fuel i w.
  induction n as [|n IH]; intros fuel i w Hi Hinv Hn Hfuel;
    (destruct fuel as [|fuel]; [lia|]); cbn [while_loop loop_steps].
  - rewrite loop_test_ok by done.
    rewrite bool_decide_eq_false_2 by lia. done.
  - rewrite loop_test_ok by done.
    rewrite bool_decide_eq_true_2 by lia.
    assert (cases ≠ 0) as Hcases.
    { pose proof (rounds_bound classes cases Hc). lia. }
    destruct (loop_body_ok classes size cases img_dir i w Hcases Hinv)
      as [-> Hinv'].
    rewrite foldl_app. apply IH; [lia|done|lia|lia].
Qed.

Lemma fresh_nothing_below (fs : filesystem image) img_dir q :
  fresh fs img_dir → img_dir `prefix_of` q → q ∉ entries fs.
Proof.
  intros ((Hwf & _ & _) & Hex & _) Hpre Hq.
  apply orb_false_iff in Hex as [Hd Hf].
  pose proof Hq as Hq'. unfold entries in Hq'.
  destruct (decide (img_dir = q)) as [->|Hne].
  - apply isdir_false in Hd as [_ Hd]. apply isfile_false in Hf.
    apply elem_of_union in Hq' as [Hq'|Hq'%elem_of_dom]; [done|].
    rewrite Hf in Hq'. by destruct Hq'.
  - by rewrite (Hwf q img_dir Hq Hpre Hne) in Hd.
Qed.

Lemma started_inv img_dir w :
  fresh (w_fs w) img_dir → loop_inv img_dir (started img_dir w).
Proof.
  intros Hfresh.
  pose proof (λ q, fresh_nothing_below _ _ q Hfresh) as Hbelow.
  destruct Hfresh as ((Hwf & Hdf & Hroot) & Hex & Hanc).
  rewrite existsb_isfile_false in Hanc.
  assert (img_dir ≠ []) as Hne.
  { intros ->. by apply orb_false_iff in Hex as [[? _]%isdir_false _]. }
  split; [done|]. cbn. split; [|split; [|split]].
  - intros q Hq. apply elem_of_union. right. by apply elem_of_list_to_set.
  - intros q [Hq|Hq%elem_of_list_to_set]%elem_of_union; auto.
  - intros c. apply eq_None_not_Some. intros Hsome%elem_of_dom.
    apply (Hbelow (join img_dir c)); [by apply prefix_app_r|].
    unfold entries. apply elem_of_union. by right.
  - intros c name [Hq|Hq%elem_of_list_to_set]%elem_of_union.
    + apply (Hbelow (join (join img_dir c) name)).
      * unfold join. rewrite <- app_assoc. by apply prefix_app_r.
      * unfold entries. apply elem_of_union. by left.
    + apply elem_of_ancestors in Hq as [_ Hq%prefix_length].
      unfold join in Hq. rewrite !length_app in Hq. cbn in Hq. lia.
Qed.

(** On a fresh folder the whole run completes, whatever the disk does. *)
Lemma generate_fresh_ok (classes : list string) (size : nat * nat)
    (cases : Z) img_dir w :
  classes ≠ [] → fresh (w_fs w) img_dir →
  generate_image_data classes size cases img_dir w
  = Some (Ok tt,
          foldl (step_world classes size cases img_dir) (started img_dir w)
                (loop_steps classes 0 (Z.to_nat (rounds classes cases)))).
Proof.
  intros Hc Hfresh. pose proof (started_inv _ _ Hfresh) as Hinv.
  destruct Hfresh as (Hwf & Hex & Hanc).
  unfold generate_image_data, confirm_replace. unfold_M.
  rewrite Hex. unfold makedirs. rewrite Hex, Hanc.
  apply while_loop_ok; [done|lia|done|f_equal; lia|].
  pose proof (rounds_bound classes cases Hc). lia.
Qed.

(** The fuel given to the loop is never used up: the function always
    returns, normally or with an exception. *)
Lemma while_loop_returns (classes : list string) (size : nat * nat)
    (cases : Z) img_dir (fuel : nat) (i : Z) w :
  0 ≤ i → (Z.to_nat (cases - i) < fuel)%nat →
  is_Some (while_loop fuel classes size cases img_dir i w).
Proof.
  revert i w. induction fuel as [|fuel IH]; intros i w Hi Hfuel; [lia|].
  cbn [while_loop]. unfold loop_test.
  case_decide as Hlen; [done|]. unfold mret, M_ret.
  case_bool_decide as Htest; [|done].
  assert (0 < Z.of_nat (length classes)) by lia.
  destruct (loop_body classes size cases img_dir i w) as [[i'|e] w'] eqn:Hbody;
    [|done].
  assert (i' = i + 1) as ->.
  { unfold loop_body, mbind, M_bind, mret, M_ret in Hbody.
    repeat case_match; by simplify_eq. }
  apply IH; [lia|nia].
Qed.

Lemma generate_image_data_returns (classes : list string)
    (size : nat * nat) (cases : Z) img_dir w :
  is_Some (generate_image_data classes size cases img_dir w).
Proof.
  unfold generate_image_data.
  destruct (confirm_replace img_dir w) as [[[|]|e] w1]; [|done..].
  destruct ((_ ← os_makedirs img_dir; print GeneratingNewImages) w1)
    as [[_|e] w2]; [|done].
  apply while_loop_returns; lia.
Qed.

(** ** File names *)

Lemma string_length_app (s t : string) :
  String.length (s +:+ t) = (String.length s + String.length t)%nat.
Proof.
  induction s as [|a s IH]; [done|].
  change (S (String.length (s +:+ t))
          = S (String.length s + String.length t)).
  by rewrite IH.
Qed.

Lemma string_app_inj_r (s1 s2 t : string) : s1 +:+ t = s2 +:+ t → s1 = s2.
Proof.
  revert s2. induction s1 as [|a s1 IH]; intros [|b s2] H.
  - done.
  - apply (f_equal String.length) in H.
    rewrite !string_length_app in H. cbn in H. lia.
  - apply (f_equal String.length) in H.
    rewrite !string_length_app in H. cbn in H. lia.
  - change (String a (s1 +:+ t) = String b (s2 +:+ t)) in H.
    injection H as -> H. f_equal. by apply IH.
Qed.

Lemma str_inj (i j : Z) : str i = str j → i = j.
Proof.
  unfold str. intros H. apply DecimalZ.to_int_inj.
  assert (∀ z, Z.to_int z ≠ Decimal.Pos Decimal.Nil
               ∧ Z.to_int z ≠ Decimal.Neg Decimal.Nil) as Hnn.
  { intros [|q|q]; cbn; split; try done;
      intros [= Hq]; by apply DecimalPos.Unsigned.to_uint_nonnil in Hq. }
  destruct (Hnn i) as [Hi1 Hi2], (Hnn j) as [Hj1 Hj2].
  pose proof (NilZero.isi _ Hi1 Hi2) as Hi.
  pose proof (NilZero.isi _ Hj1 Hj2) as Hj.
  rewrite H in Hi. congruence.
Qed.

Lemma image_file_inj img_dir c c' (i j : Z) :
  image_file img_dir c i = image_file img_dir c' j → c = c' ∧ i = j.
Proof.
  unfold image_file. intros [[_ ->]%join_inj H]%join_inj. split; [done|].
  by apply string_app_inj_r, String.app_inj, str_inj in H.
Qed.

(** ** The steps of the loop *)

Lemma step_files_round img_dir (classes : list string) (i : Z) :
  step_files img_dir (map (Make i) classes)
  = map (λ c, image_file img_dir c i) classes.
Proof. induction classes as [|c l IH]; cbn; [done|by f_equal]. Qed.

Lemma step_files_loop img_dir (classes : list string) (i : Z) (n : nat) :
  step_files img_dir (loop_steps classes i n)
  = image_files img_dir classes (i + 1) (Z.of_nat n).
Proof.
  revert i. induction n as [|n IH]; intros i; [done|].
  unfold image_files. rewrite seqZ_cons by lia. cbn [loop_steps flat_map].
  unfold step_files, round_steps. rewrite flat_map_app. cbn [flat_map app].
  fold (step_files img_dir (map (Make (i + 1)) classes)).
  fold (step_files img_dir (loop_steps classes (i + 1) n)).
  rewrite step_files_round, IH. unfold image_files.
  by replace (Z.pred (Z.of_nat (S n))) with (Z.of_nat n) by lia.
Qed.

Lemma elem_of_loop_steps (classes : list string) (i : Z) (n : nat)
    (j : Z) c :
  Make j c ∈ loop_steps classes i n ↔ (i < j ≤ i + Z.of_nat n) ∧ c ∈ classes.
Proof.
  revert i. induction n as [|n IH]; intros i; cbn [loop_steps].
  { rewrite elem_of_nil. lia. }
  unfold round_steps.
  rewrite elem_of_app, elem_of_cons, list_elem_of_fmap, IH. split.
  - intros [[?|(c' & [= -> ->] & ?)]|[? ?]]; [done|split; [lia|done]|].
    split; [lia|done].
  - intros [Hj Hc]. destruct (decide (j = i + 1)) as [->|]; [|right; split; [lia|done]].
    left. right. by exists c.
Qed.

Lemma elem_of_step_files img_dir (l : list step) p :
  p ∈ step_files img_dir l
  ↔ ∃ i c, Make i c ∈ l ∧ p = image_file img_dir c i.
Proof.
  unfold step_files. rewrite list_elem_of_In, in_flat_map. split.
  - intros ([i|i c] & Hin%list_elem_of_In & Hp); [done|].
    destruct Hp as [<-|[]]. eauto.
  - intros (i & c & Hin%list_elem_of_In & ->). eexists; split; [done|by left].
Qed.

Lemma elem_of_step_folders img_dir (l : list step) p :
  p ∈ step_folders img_dir l ↔ ∃ i c, Make i c ∈ l ∧ p = join img_dir c.
Proof.
  unfold step_folders. rewrite list_elem_of_In, in_flat_map. split.
  - intros ([i|i c] & Hin%list_elem_of_In & Hp); [done|].
    destruct Hp as [<-|[]]. eauto.
  - intros (i & c & Hin%list_elem_of_In & ->). eexists; split; [done|by left].
Qed.

(** ** Attempts *)

Lemma retry_trace_true (ok : nat → bool) (k : nat) (ps : list path) p :
  (p, true) ∈ retry_trace ok k ps → p ∈ ps.
Proof.
  revert k. induction ps as [|q ps IH]; intros k; cbn;
    [by intros ?%elem_of_nil|].
  destruct (ok k).
  - intros [[= ->]|?%IH]%elem_of_cons; [left|by right].
  - intros [[=]|[[= -> _]|?%IH]%elem_of_cons]%elem_of_cons;
      [left|by right].
Qed.

Lemma given_up_nil (ok : nat → bool) (k : nat) (ps : list path) p :
  given_up ok k ps = [] → p ∈ ps → (p, true) ∈ retry_trace ok k ps.
Proof.
  revert k. induction ps as [|q ps IH]; intros k; cbn; [by intros _ ?%elem_of_nil|].
  destruct (ok k) eqn:Hk; [|destruct (ok (S k)) eqn:Hk']; [| |done].
  - intros Hnil [->|Hp]%elem_of_cons; [left|right; by apply IH].
  - intros Hnil [->|Hp]%elem_of_cons; right; [left|right; by apply IH].
Qed.

(** ** What the steps leave behind *)

Section steps.
Variables (classes : list string) (size : nat * nat) (cases : Z).
Variable img_dir : path.

Local Abbreviation after l w :=
  (foldl (step_world classes size cases img_dir) w l).

Lemma step_world_disk_ok w (s : step) :
  w_disk_ok (step_world classes size cases img_dir w s) = w_disk_ok w.
Proof.
  destruct s; cbn; unfold announce_world, make_world;
    repeat case_match; done.
Qed.

Lemma steps_saves (l : list step) w :
  w_disk_ok (after l w) = w_disk_ok w
  ∧ w_saves (after l w)
    = w_saves w ++ retry_trace (w_disk_ok w) (length (w_saves w))
                               (step_files img_dir l).
Proof.
  revert w. induction l as [|s l IH]; intros w; cbn [foldl].
  { by rewrite app_nil_r. }
  destruct (IH (step_world classes size cases img_dir w s)) as [-> ->].
  rewrite step_world_disk_ok. split; [done|].
  destruct s as [i|i c]; cbn [step_world step_files flat_map app].
  - unfold announce_world. by case_decide.
  - unfold make_world. cbn [retry_trace].
    destruct (w_disk_ok w (length (w_saves w)));
      [|destruct (w_disk_ok w (S (length (w_saves w))))];
      cbn [w_saves]; rewrite length_app, <- app_assoc; cbn [length app];
      by rewrite ?Nat.add_1_r, ?(Nat.add_comm _ 2).
Qed.


Lemma steps_dirs (l : list step) w :
  dirs (w_fs (after l w))
  = dirs (w_fs w) ∪ list_to_set (step_folders img_dir l).
Proof.
  revert w. induction l as [|s l IH]; intros w; cbn [foldl].
  { cbn. by rewrite (right_id_L ∅ (∪)). }
  rewrite IH.
  destruct s as [i|i c]; cbn [step_world step_folders flat_map app].
  - unfold announce_world. by case_decide.
  - unfold make_world. cbn [list_to_set].
    repeat case_match; cbn [w_fs dirs]; by rewrite (assoc_L (∪)).
Qed.

Lemma steps_files (l : list step) w (p : path) :
  is_Some (files (w_fs (after l w)) !! p)
  ↔ is_Some (files (w_fs w) !! p)
    ∨ (p, true) ∈ retry_trace (w_disk_ok w) (length (w_saves w))
                              (step_files img_dir l).
Proof.
  revert w. induction l as [|s l IH]; intros w; cbn [foldl].
  { cbn. rewrite elem_of_nil. tauto. }
  rewrite IH, step_world_disk_ok.
  destruct s as [i|i c]; cbn [step_world step_files flat_map app].
  - unfold announce_world. by case_decide.
  - unfold make_world. cbn [retry_trace].
    destruct (w_disk_ok w (length (w_saves w))) eqn:Hk;
      [|destruct (w_disk_ok w (S (length (w_saves w)))) eqn:Hk'];
      cbn [w_saves w_fs files]; rewrite length_app; cbn [length];
      rewrite ?Nat.add_1_r, ?(Nat.add_comm _ 2), ?elem_of_cons;
      rewrite ?lookup_insert_is_Some;
      fold (step_files img_dir l); change (2 + ?n)%nat with (S (S n));
      destruct (decide (image_file img_dir c i = p)); intuition congruence.
Qed.

Lemma steps_content (l : list step) w (p : path) (img : image) :
  files (w_fs (after l w)) !! p = Some img →
  files (w_fs w) !! p = Some img
  ∨ ∃ i c, Make i c ∈ l ∧ p = image_file img_dir c i
           ∧ supp (create_image size c) img.
Proof.
  revert w. induction l as [|s l IH]; intros w; cbn [foldl]; [by left|].
  intros [Hp|(i & c & Hin & -> & Hsupp)]%IH.
  2:{ right. exists i, c. split; [by right|done]. }
  destruct s as [i|i c]; cbn [step_world] in Hp.
  - left. unfold announce_world in Hp. by case_decide.
  - unfold make_world in Hp.
    assert (files (w_fs w) !! p = Some img
            ∨ p = image_file img_dir c i
              ∧ img = (run (create_image size c) (w_tape w) (w_pos w)).1)
      as [?| [-> ->]]; [|by left|].
    { repeat case_match; cbn [w_fs files] in Hp; auto;
        apply lookup_insert_Some in Hp as [[<- <-]|[_ ?]]; auto. }
    right. exists i, c. split; [left|]. split; [done|].
    apply create_image_run_supp.
Qed.

End steps.

Lemma fresh_empty_disk img_dir :
  img_dir ≠ [] → fresh (Filesystem ∅ ∅) img_dir.
Proof.
  intros Hne.
  assert (entries (Filesystem (C := image) ∅ ∅) = ∅) as Hentries.
  { unfold entries. cbn. rewrite dom_empty_L. apply (left_id_L ∅ (∪)). }
  split; [|split].
  - unfold wf. rewrite Hentries. split; [|split].
    + intros q p Hq. by apply not_elem_of_empty in Hq.
    + intros q Hq. by apply not_elem_of_empty in Hq.
    + apply not_elem_of_empty.
  - apply orb_false_iff. split.
    + apply isdir_false. split; [done|apply not_elem_of_empty].
    + by apply isfile_false.
  - apply existsb_isfile_false. intros q _. apply lookup_empty.
Qed.

(** Removing a folder of a well-formed disk leaves it fresh. *)
Lemma remove_below_fresh (fs : filesystem image) img_dir :
  wf fs → img_dir ∈ dirs fs → fresh (remove_below img_dir fs) img_dir.
Proof.
  intros (Hwf & Hdf & Hroot) Hdir.
  assert (img_dir ≠ []) as Hne.
  { intros ->. apply Hroot. unfold entries. apply elem_of_union. by left. }
  assert (∀ q, q ∈ entries (remove_below img_dir fs)
               ↔ q ∈ entries fs ∧ ¬ img_dir `prefix_of` q) as Hentries.
  { intros q. unfold entries, remove_below. cbn.
    rewrite !elem_of_union, elem_of_filter, !elem_of_dom.
    split.
    - intros [[? ?]|[x [? ?]%map_lookup_filter_Some]]; eauto.
    - intros [[?|[x Hx]] ?]; [by left|right]. exists x.
      by apply map_lookup_filter_Some. }
  assert (∀ q, files fs !! q = None
               → files (remove_below img_dir fs) !! q = None) as Hnone.
  { intros q Hq. apply map_lookup_filter_None. by left. }
  split; [split; [|split]|split].
  - intros q p [Hq Hnq]%Hentries Hpre Hpq.
    apply isdir_true. cbn. rewrite elem_of_filter.
    apply (Hwf q p Hq Hpre) in Hpq. apply isdir_true in Hpq as [?|?];
      [by left|right]. split; [|done].
    intros Hp. apply Hnq. by etrans.
  - intros q [_ Hq]%elem_of_filter. by apply Hnone, Hdf.
  - by intros [? _]%Hentries.
  - apply orb_false_iff. split.
    + apply isdir_false. split; [done|]. cbn. rewrite elem_of_filter.
      intros [Hp _]. by apply Hp.
    + apply isfile_false. by apply Hnone, Hdf.
  - apply existsb_isfile_false. intros q [Hq Hpre]%elem_of_ancestors.
    apply Hnone. destruct (decide (q = img_dir)) as [->|Hqp]; [by apply Hdf|].
    assert (isdir fs q = true) as [?|?]%isdir_true; [|done|by apply Hdf].
    apply (Hwf img_dir q); [|done..].
    unfold entries. apply elem_of_union. by left.
Qed.

(** A run that replaces the folder goes on like a run without it. *)
Lemma loop_reached_fresh (classes : list string) (size : nat * nat)
    (cases : Z) img_dir w w0 :
  loop_reached img_dir w w0 →
  fresh (w_fs w0) img_dir
  ∧ generate_image_data classes size cases img_dir w
    = generate_image_data classes size cases img_dir w0.
Proof.
  intros [[Hfresh ->]|(Hwf & Hdir & Hin & ->)]; [done|].
  pose proof (remove_below_fresh _ _ Hwf Hdir) as Hfresh.
  split; [done|].
  assert (img_dir ≠ []) as Hne.
  { intros ->. destruct Hwf as (_ & _ & Hroot). apply Hroot.
    unfold entries. apply elem_of_union. by left. }
  assert (confirm_replace img_dir (cleared img_dir w)
          = (Ok true, cleared img_dir w)) as Hafter.
  { unfold confirm_replace. unfold_M.
    destruct Hfresh as (_ & Hex & _).
    change (w_fs (cleared img_dir w)) with (remove_below img_dir (w_fs w)).
    by rewrite Hex. }
  assert (confirm_replace img_dir w = (Ok true, cleared img_dir w))
    as Hbefore.
  { unfold confirm_replace, input, shutil_rmtree, rmtree. unfold_M.
    replace (path_exists (w_fs w) img_dir) with true.
    2:{ symmetry. apply orb_true_iff. left. apply isdir_true. by right. }
    destruct (w_stdin w) as [|line rest] eqn:Hstdin; [done|].
    injection Hin as ->. cbn.
    destruct (decide (img_dir = [])); [done|].
    case_decide; [|done]. cbn.
    rewrite bool_decide_eq_true_2 by done.
    unfold cleared, set_fs. cbn. rewrite Hstdin. cbn.
    by rewrite <- app_assoc. }
  unfold generate_image_data. by rewrite Hafter, Hbefore.
Qed.

(** ** The contracts of the batch *)

(** C4: when the output folder exists and the line typed at the prompt is
    not "Y", [generate_image_data] returns normally and the world is as
    before but for the prompt printed and the line read: the disk is
    unchanged, nothing was saved, no randomness was consumed. *)
Theorem declined_replace_changes_nothing (classes : list string)
    (size : nat * nat) (cases : Z) img_dir w (line : string)
    (rest : list string) :
  path_exists (w_fs w) img_dir = true →
  w_stdin w = line :: rest →
  line ≠ "Y" →
  generate_image_data classes size cases img_dir w
  = Some (Ok tt,
          World (w_fs w) rest (w_stdout w ++ [PromptReplace]) (w_tape w)
                (w_pos w) (w_disk_ok w) (w_saves w)).
Proof.
  intros Hex Hin Hline.
  unfold generate_image_data, confirm_replace, input. unfold_M.
  rewrite Hex, Hin. by case_decide.
Qed.

Lemma declined_replace_changes_nothing_witness :
  generate_image_data classnames img_size 1200 folder_name
                      Examples.declining_world
  = Some (Ok tt,
          World (w_fs Examples.declining_world) []
                (w_stdout Examples.declining_world ++ [PromptReplace])
                (w_tape Examples.declining_world)
                (w_pos Examples.declining_world)
                (w_disk_ok Examples.declining_world)
                (w_saves Examples.declining_world)).
Proof.
  apply (declined_replace_changes_nothing classnames img_size 1200
           folder_name Examples.declining_world "n" []).
  - reflexivity.
  - reflexivity.
  - discriminate.
Defined.



(** What a completed run on a fresh folder leaves on the disk, when no
    image was given up. *)
Lemma generate_fresh_disk (classes : list string) (size : nat * nat)
    (cases : Z) img_dir w :
  classes ≠ [] → 2 ≤ cases → fresh (w_fs w) img_dir →
  given_up (w_disk_ok w) (length (w_saves w))
           (image_files img_dir classes 1 (rounds classes cases)) = [] →
  ∃ w',
    generate_image_data classes size cases img_dir w = Some (Ok tt, w')
    ∧ (1 ≤ ceil_div (cases - 1) (Z.of_nat (length classes)))
    ∧ (∀ q, img_dir `prefix_of` q →
         q ∈ dirs (w_fs w')
         ↔ q = img_dir ∨ ∃ c, c ∈ classes ∧ q = join img_dir c)
    ∧ (∀ q, img_dir `prefix_of` q →
         is_Some (files (w_fs w') !! q)
         ↔ ∃ i c, 1 ≤ i ≤ ceil_div (cases - 1) (Z.of_nat (length classes))
                  ∧ c ∈ classes ∧ q = image_file img_dir c i)
    ∧ (∀ c name img,
         files (w_fs w') !! join (join img_dir c) name = Some img →
         c ∈ classes ∧ supp (create_image size c) img).
Proof.
  intros Hc Hcases Hfresh Hgiven.
  eexists. split; [by apply generate_fresh_ok|].
  set (K := ceil_div (cases - 1) (Z.of_nat (length classes))).
  set (steps := loop_steps classes 0 (Z.to_nat (rounds classes cases))).
  assert (0 < Z.of_nat (length classes)) as HN
    by (destruct classes; cbn; [done|lia]).
  assert (1 ≤ K) as HK.
  { pose proof (ceil_div_spec (cases - 1) _ HN). fold K in H. nia. }
  assert (rounds classes cases = K) as Hrounds by (unfold rounds; fold K; lia).
  assert (∀ q, img_dir `prefix_of` q →
               (q ∉ dirs (w_fs w)) ∧ files (w_fs w) !! q = None) as Hold.
  { intros q Hpre. pose proof (fresh_nothing_below _ _ q Hfresh Hpre) as Hq.
    unfold entries in Hq. rewrite not_elem_of_union, not_elem_of_dom in Hq.
    done. }
  assert (img_dir ≠ []) as Hne by apply (started_inv _ _ Hfresh).
  assert (∀ i c, Make i c ∈ steps ↔ 1 ≤ i ≤ K ∧ c ∈ classes) as Hsteps.
  { intros i c. unfold steps. rewrite elem_of_loop_steps, Z2Nat.id by lia.
    rewrite Hrounds. intuition lia. }
  split; [done|]. split; [|split].
  - intros q Hpre. rewrite steps_dirs. fold steps.
    cbn [started w_fs dirs].
    rewrite !elem_of_union, !elem_of_list_to_set, elem_of_step_folders,
      elem_of_ancestors.
    split.
    + intros [[Hq|[_ Hq]]|(i & c & Hin%Hsteps & ->)].
      * by apply Hold in Hq.
      * left. apply (anti_symm prefix); done.
      * right. exists c. tauto.
    + intros [->|(c & Hin & ->)].
      * left. right. done.
      * right. exists 1, c. split; [|done]. apply Hsteps. split; [lia|done].
  - intros q Hpre. rewrite steps_files. fold steps.
    cbn [started w_fs files w_saves w_disk_ok].
    assert (step_files img_dir steps
            = image_files img_dir classes 1 (rounds classes cases)) as Hsf.
    { unfold steps. rewrite step_files_loop, Z2Nat.id; [done|lia]. }
    rewrite Hsf. split.
    + intros [Hq|Hq%retry_trace_true].
      * destruct (Hold q Hpre) as [_ Hnone]. rewrite Hnone in Hq.
        by destruct Hq.
      * rewrite <- Hsf in Hq.
        apply elem_of_step_files in Hq as (i & c & Hin%Hsteps & ->).
        exists i, c. tauto.
    + intros (i & c & Hi & Hin & ->). right.
      apply given_up_nil; [done|]. rewrite <- Hsf.
      apply elem_of_step_files. exists i, c. split; [|done].
      by apply Hsteps.
  - intros c name img [Hq|(i & c' & Hin%Hsteps & Heq & Hsupp)]%steps_content.
    + cbn in Hq. destruct (Hold (join (join img_dir c) name)) as [_ Hnone].
      { unfold join. rewrite <- app_assoc. by apply prefix_app_r. }
      congruence.
    + unfold image_file in Heq. apply join_inj in Heq as [Heq _].
      apply join_inj in Heq as [_ ->]. tauto.
Qed.

(** C2, as amended: for at least one class label, every label the name
    of a folder ([label_ok]), at least 2 cases and no more than a float
    counts exactly ([float_exact]), and a fresh output folder, when no
    image is given up (no save fails twice), [generate_image_data] returns
    normally; the output folder then holds exactly one entry per distinct
    class label, a folder; the folder of each class holds exactly
    ⌈(cases - 1) / N⌉ files, named by the class and the round; and every
    file of a class folder is an image [create_image] makes for that
    class. *)
Theorem batch_fills_class_folders (classes : list string)
    (size : nat * nat) (cases : Z) img_dir w :
  classes ≠ [] → Forall (λ c, label_ok c = true) classes →
  2 ≤ cases → float_exact cases → fresh (w_fs w) img_dir →
  given_up (w_disk_ok w) (length (w_saves w))
           (image_files img_dir classes 1 (rounds classes cases)) = [] →
  ∃ w',
    generate_image_data classes size cases img_dir w = Some (Ok tt, w')
    ∧ (∃ l, listdir img_dir (w_fs w') = Ok l
            ∧ NoDup l
            ∧ ∀ c, c ∈ l ↔ c ∈ classes)
    ∧ (∀ c, c ∈ classes →
         isdir (w_fs w') (join img_dir c) = true
         ∧ ∃ l, listdir (join img_dir c) (w_fs w') = Ok l
                ∧ Z.of_nat (length l)
                  = ceil_div (cases - 1) (Z.of_nat (length classes))
                ∧ ∀ name,
                    name ∈ l
                    ↔ ∃ i, 1 ≤ i ≤ ceil_div (cases - 1)
                                            (Z.of_nat (length classes))
                           ∧ name = (c +:+ str i) +:+ ".jpg")
    ∧ (∀ c name img,
         files (w_fs w') !! join (join img_dir c) name = Some img →
         c ∈ classes ∧ supp (create_image size c) img).
Proof.
  intros Hc _ Hcases _ Hfresh Hgiven.
  destruct (generate_fresh_disk classes size cases img_dir w
              Hc Hcases Hfresh Hgiven)
    as (w' & Hrun & HK & Hdirs & Hfiles & Hcontent).
  set (K := ceil_div (cases - 1) (Z.of_nat (length classes))) in *.
  exists w'. split; [done|].
  assert (∀ q, img_dir `prefix_of` q →
     q ∈ entries (w_fs w')
     ↔ q = img_dir
       ∨ (∃ c, c ∈ classes ∧ q = join img_dir c)
       ∨ ∃ i c, 1 ≤ i ≤ K ∧ c ∈ classes ∧ q = image_file img_dir c i)
    as Hentries.
  { intros q Hpre. unfold entries.
    rewrite elem_of_union, elem_of_dom, Hdirs, Hfiles by done. tauto. }
  assert (∀ c, img_dir `prefix_of` join img_dir c) as Hpre1
    by (intros; by apply prefix_app_r).
  assert (∀ c name, img_dir `prefix_of` join (join img_dir c) name) as Hpre2.
  { intros. unfold join. rewrite <- app_assoc. by apply prefix_app_r. }
  assert (∀ c, join img_dir c ≠ img_dir) as Hne1.
  { intros c H%(f_equal length). unfold join in H.
    rewrite length_app in H. cbn in H. lia. }
  assert (∀ c name, join (join img_dir c) name ≠ img_dir) as Hne2.
  { intros c name H%(f_equal length). unfold join in H.
    rewrite !length_app in H. cbn in H. lia. }
  split; [|split; [|done]].
  - destruct (listdir_isdir img_dir (w_fs w')) as [l Hl].
    { apply isdir_true. right. apply Hdirs; [done|by left]. }
    exists l. split; [done|].
    destruct (listdir_Ok _ _ _ Hl) as [Hnd Hin]. split; [done|].
    intros c. rewrite Hin, Hentries by done. split.
    + intros [H|[(c' & Hc' & [_ ->]%join_inj)|(i & c' & _ & _ & H)]].
      * by apply Hne1 in H.
      * done.
      * symmetry in H. by apply join_join_ne in H.
    + intros Hin'. right. left. by exists c.
  - intros c Hin.
    assert (isdir (w_fs w') (join img_dir c) = true) as Hdir.
    { apply isdir_true. right. apply Hdirs; [done|]. right. by exists c. }
    split; [done|].
    destruct (listdir_isdir _ _ Hdir) as [l Hl].
    exists l. split; [done|].
    destruct (listdir_Ok _ _ _ Hl) as [Hnd Hmem].
    assert (∀ name, name ∈ l
                    ↔ ∃ i, 1 ≤ i ≤ K ∧ name = (c +:+ str i) +:+ ".jpg")
      as Hnames.
    { intros name. rewrite Hmem, Hentries by done. split.
      - intros [H|[(c' & _ & H)|(i & c' & Hi & _ & H)]].
        + by apply Hne2 in H.
        + by apply join_join_ne in H.
        + unfold image_file in H.
          apply join_inj in H as [[_ ->]%join_inj ->]. by exists i.
      - intros (i & Hi & ->). right. right. by exists i, c. }
    split; [|done].
    rewrite (Permutation_length
               (l' := (λ i, (c +:+ str i) +:+ ".jpg") <$> seqZ 1 K)).
    { rewrite length_fmap, length_seqZ. lia. }
    apply NoDup_Permutation; [done| |].
    + apply NoDup_fmap_2_strong; [|apply NoDup_seqZ].
      intros i j _ _ H.
      by apply string_app_inj_r, String.app_inj, str_inj in H.
    + intros name. rewrite Hnames, list_elem_of_fmap.
      split; intros (i & ? & ?); exists i; rewrite ?elem_of_seqZ in *;
        (split; [done|lia]) || (split; [lia|done]).
Qed.

Lemma batch_fills_class_folders_witness :
  ∃ w',
    generate_image_data classnames img_size 30 folder_name
                        Examples.empty_world = Some (Ok tt, w')
    ∧ (∃ l, listdir folder_name (w_fs w') = Ok l
            ∧ NoDup l
            ∧ ∀ c, c ∈ l ↔ c ∈ classnames)
    ∧ (∀ c, c ∈ classnames →
         isdir (w_fs w') (join folder_name c) = true
         ∧ ∃ l, listdir (join folder_name c) (w_fs w') = Ok l
                ∧ Z.of_nat (length l)
                  = ceil_div (30 - 1) (Z.of_nat (length classnames))
                ∧ ∀ name,
                    name ∈ l
                    ↔ ∃ i, 1 ≤ i ≤ ceil_div (30 - 1)
                                            (Z.of_nat (length classnames))
                           ∧ name = (c +:+ str i) +:+ ".jpg")
    ∧ (∀ c name img,
         files (w_fs w') !! join (join folder_name c) name = Some img →
         c ∈ classnames ∧ supp (create_image img_size c) img).
Proof.
  apply (batch_fills_class_folders classnames img_size 30 folder_name
           Examples.empty_world).
  - discriminate.
  - repeat (constructor; [by vm_compute|]). constructor.
  - lia.
  - unfold float_exact. lia.
  - apply fresh_empty_disk. discriminate.
  - reflexivity.
Defined.

(** C2, as stated, fails for a single case: on a fresh folder, with one
    class and [cases = 1], the run returns normally without a round, and
    the class has no folder. *)
Lemma one_case_makes_no_class_folder :
  fresh (w_fs Examples.empty_world) folder_name
  ∧ ∃ w',
      generate_image_data ["circle"] img_size 1 folder_name
                          Examples.empty_world = Some (Ok tt, w')
      ∧ listdir folder_name (w_fs w') = Ok []
      ∧ ¬ (∀ c, c ∈ ["circle"] →
                path_exists (w_fs w') (join folder_name c) = true).
Proof.
  split; [apply fresh_empty_disk; discriminate|].
  eexists. split; [reflexivity|]. split; [reflexivity|].
  intros H. specialize (H "circle" ltac:(left)). discriminate H.
Qed.

End generate_facts.


(* ===================================================================== *)
(** * More on [generate_image_data] *)
(* ===================================================================== *)

Section generate_more.
Import Rand Py FS TransferLearning.
Implicit Types (w : world) (img_dir p q : path) (c : string).

Local Ltac unfold_M :=
  unfold mbind, M_bind, mret, M_ret, os_path_exists, os_makedirs, on_fs,
    print, raise, try_except in *.

Local Abbreviation steps_of classes cases :=
  (loop_steps classes 0 (Z.to_nat (rounds classes cases))).

(** A run that reaches the loop and has classes completes, on the world
    with the folder out of the way. *)
Lemma generate_reached (classes : list string) (size : nat * nat)
    (cases : Z) img_dir w w0 :
  classes ≠ [] → loop_reached img_dir w w0 →
  fresh (w_fs w0) img_dir
  ∧ generate_image_data classes size cases img_dir w
    = Some (Ok tt,
            foldl (step_world classes size cases img_dir) (started img_dir w0)
                  (steps_of classes cases)).
Proof.
  intros Hc [Hfresh ->]%(loop_reached_fresh classes size cases).
  split; [done|]. by apply generate_fresh_ok.
Qed.

Lemma replacing_world_reached :
  loop_reached folder_name Examples.replacing_world
               (cleared folder_name Examples.replacing_world).
Proof.
  right. split; [by apply wf_check_sound|].
  split; [|done]. apply (bool_decide_unpack _). by vm_compute.
Qed.

(** ** More on what the steps leave behind *)


Section more_steps.
Variables (classes : list string) (size : nat * nat) (cases : Z).
Variable img_dir : path.

Local Abbreviation after l w :=
  (foldl (step_world classes size cases img_dir) w l).


(** A step writes no file but the image it makes. *)
Lemma steps_other_files (l : list step) w q :
  (∀ i c, q ≠ image_file img_dir c i) →
  files (w_fs (after l w)) !! q = files (w_fs w) !! q.
Proof.
  intros Hq. revert w. induction l as [|s l IH]; intros w; cbn [foldl];
    [done|].
  rewrite IH. destruct s as [i|i c]; cbn [step_world].
  - unfold announce_world. by case_decide.
  - unfold make_world. repeat case_match; cbn [w_fs files]; [..|done];
      by rewrite lookup_insert_ne.
Qed.

(** What the steps print: the progress lines of the rounds announced,
    and the reports of images that were not saved. *)
Lemma steps_stdout (P : output → Prop) (l : list step) w :
  (∀ i, Announce i ∈ l → i `mod` 25 = 0 →
        P (Progress (i * Z.of_nat (length classes)) cases)) →
  (∀ i c, Make i c ∈ l → P (ErrorSavingImage (image_file img_dir c i))) →
  ∃ new, w_stdout (after l w) = w_stdout w ++ new ∧ Forall P new.
Proof.
  revert w. induction l as [|s l IH]; intros w Hann Hmake; cbn [foldl].
  { exists []. by rewrite app_nil_r. }
  destruct (IH (step_world classes size cases img_dir w s))
    as (new & -> & Hnew).
  { intros i Hi. apply Hann. by right. }
  { intros i c Hi. apply Hmake. by right. }
  destruct s as [i|i c]; cbn [step_world].
  - unfold announce_world. case_decide; [|by exists new].
    cbn [w_stdout]. eexists. rewrite <- app_assoc. split; [done|].
    constructor; [|done]. apply Hann; [left|done].
  - unfold make_world. repeat case_match; cbn [w_stdout];
      [by exists new..|].
    eexists. rewrite <- app_assoc. split; [done|].
    constructor; [|done]. apply Hmake. left.
Qed.

End more_steps.

Lemma elem_of_loop_steps_Announce (classes : list string) (i : Z) (n : nat)
    (j : Z) :
  Announce j ∈ loop_steps classes i n ↔ i ≤ j < i + Z.of_nat n.
Proof.
  revert i. induction n as [|n IH]; intros i; cbn [loop_steps].
  { rewrite elem_of_nil. lia. }
  unfold round_steps.
  rewrite elem_of_app, elem_of_cons, list_elem_of_fmap, IH. split.
  - intros [[[= ->]|(c & [=] & _)]|?]; lia.
  - intros Hj. destruct (decide (j = i)) as [->|]; [by left; left|right; lia].
Qed.

Lemma length_image_files img_dir (classes : list string) (first count : Z) :
  length (image_files img_dir classes first count)
  = (Z.to_nat count * length classes)%nat.
Proof.
  unfold image_files. rewrite <- (length_seqZ first count).
  induction (seqZ first count) as [|i l IH]; [done|].
  cbn [flat_map length]. by rewrite length_app, length_map, IH.
Qed.


Lemma retry_trace_all_ok (ok : nat → bool) (k : nat) (ps : list path) :
  (∀ n, ok n = true) → retry_trace ok k ps = (λ p, (p, true)) <$> ps.
Proof.
  intros Hok. revert k. induction ps as [|p ps IH]; intros k; [done|].
  cbn. by rewrite Hok, IH.
Qed.

Lemma image_files_NoDup img_dir (classes : list string) (first count : Z) :
  NoDup classes → NoDup (image_files img_dir classes first count).
Proof.
  intros Hnd. unfold image_files.
  pose proof (NoDup_seqZ first count) as Hseq.
  induction Hseq as [|i l Hi Hl IH]; [constructor|].
  cbn [flat_map]. apply NoDup_app. split; [|split; [|done]].
  - apply NoDup_fmap_2_strong; [|done].
    intros c c' _ _ H. by apply image_file_inj in H as [-> _].
  - intros p (c & -> & _)%list_elem_of_fmap Hin.
    apply list_elem_of_In, in_flat_map in Hin as (j & Hj & Hin).
    apply list_elem_of_In, list_elem_of_fmap in Hin as (c' & Heq & _).
    apply image_file_inj in Heq as [_ ->].
    by apply list_elem_of_In in Hj.
Qed.

(** ** Error paths *)

(** X1: with an empty list of classes, a run that reaches the loop fails
    with ZeroDivisionError at the first test of the loop condition: the
    output folder has been created (and the old one removed, when the user
    let the run replace it), "Generating new images..." has been printed,
    and nothing else was done. *)
Theorem no_class_divides_by_zero (size : nat * nat) (cases : Z) img_dir w w0 :
  loop_reached img_dir w w0 →
  generate_image_data [] size cases img_dir w
  = Some (Raise ZeroDivisionError, started img_dir w0).
Proof.
  intros [Hfresh ->]%(loop_reached_fresh [] size cases).
  destruct Hfresh as (_ & Hex & Hanc).
  unfold generate_image_data, confirm_replace. unfold_M.
  rewrite Hex. unfold makedirs. by rewrite Hex, Hanc.
Qed.

Lemma no_class_divides_by_zero_witness :
  generate_image_data [] img_size 1200 folder_name Examples.replacing_world
  = Some (Raise ZeroDivisionError,
          started folder_name (cleared folder_name Examples.replacing_world)).
Proof.
  apply (no_class_divides_by_zero img_size 1200 folder_name
           Examples.replacing_world
           (cleared folder_name Examples.replacing_world)).
  apply replacing_world_reached.
Defined.

(** X2: when the output path is a regular file and the user answers "Y",
    the run fails with NotADirectoryError in [shutil.rmtree]: the prompt
    and "Deleting old images..." have been printed, the disk is as it
    was. *)
Theorem file_in_the_way_stops_the_run (classes : list string)
    (size : nat * nat) (cases : Z) img_dir w :
  isfile (w_fs w) img_dir = true →
  isdir (w_fs w) img_dir = false →
  head (w_stdin w) = Some "Y" →
  generate_image_data classes size cases img_dir w
  = Some (Raise NotADirectoryError,
          World (w_fs w) (tail (w_stdin w))
                (w_stdout w ++ [PromptReplace; DeletingOldImages])
                (w_tape w) (w_pos w) (w_disk_ok w) (w_saves w)).
Proof.
  intros Hfile [Hne Hdir]%isdir_false Hin.
  destruct (w_stdin w) as [|line rest] eqn:Hstdin; [done|].
  injection Hin as ->.
  unfold generate_image_data, confirm_replace, input, shutil_rmtree, rmtree.
  unfold_M. unfold path_exists. rewrite Hfile, orb_true_r, Hstdin. cbn.
  case_decide; [|done]. cbn.
  destruct (decide (img_dir = [])); [done|].
  rewrite bool_decide_eq_false_2 by done. rewrite Hfile.
  unfold set_fs. cbn. by rewrite <- app_assoc.
Qed.

Lemma file_in_the_way_stops_the_run_witness :
  generate_image_data classnames img_size 1200 folder_name
                      Examples.file_in_the_way
  = Some (Raise NotADirectoryError,
          World (w_fs Examples.file_in_the_way)
                (tail (w_stdin Examples.file_in_the_way))
                (w_stdout Examples.file_in_the_way
                   ++ [PromptReplace; DeletingOldImages])
                (w_tape Examples.file_in_the_way)
                (w_pos Examples.file_in_the_way)
                (w_disk_ok Examples.file_in_the_way)
                (w_saves Examples.file_in_the_way)).
Proof.
  apply (file_in_the_way_stops_the_run classnames img_size 1200 folder_name
           Examples.file_in_the_way); reflexivity.
Defined.

(** ** What a run touches *)

Lemma image_file_below img_dir c (i : Z) :
  img_dir `prefix_of` image_file img_dir c i.
Proof.
  unfold image_file, join. rewrite <- app_assoc. by apply prefix_app_r.
Qed.

Lemma cleared_outside img_dir w q :
  ¬ img_dir `prefix_of` q →
  files (w_fs (cleared img_dir w)) !! q = files (w_fs w) !! q
  ∧ (q ∈ dirs (w_fs (cleared img_dir w)) ↔ q ∈ dirs (w_fs w)).
Proof.
  intros Hq. cbn. split.
  - destruct (files (w_fs w) !! q) as [x|] eqn:Hx.
    + by apply map_lookup_filter_Some.
    + apply map_lookup_filter_None. by left.
  - rewrite elem_of_filter. tauto.
Qed.

(** X3: with labels that are names of folders ([label_ok]) and a case
    count a float holds exactly ([float_exact]), a run that reaches the
    loop completes and leaves alone whatever lies outside the output
    folder: every path that is not at or below the folder holds the file
    it held, and is a directory iff it was one or is a parent of the
    folder that the run had to create. *)
Theorem run_stays_in_its_folder (classes : list string) (size : nat * nat)
    (cases : Z) img_dir w w0 :
  classes ≠ [] → Forall (λ c, label_ok c = true) classes →
  float_exact cases → loop_reached img_dir w w0 →
  ∃ w',
    generate_image_data classes size cases img_dir w = Some (Ok tt, w')
    ∧ ∀ q, ¬ img_dir `prefix_of` q →
        files (w_fs w') !! q = files (w_fs w) !! q
        ∧ (q ∈ dirs (w_fs w')
           ↔ q ∈ dirs (w_fs w) ∨ q ∈ ancestors img_dir).
Proof.
  intros Hc _ _ Hreach.
  destruct (generate_reached classes size cases img_dir w w0 Hc Hreach)
    as [_ Hrun].
  eexists. split; [done|]. intros q Hq.
  assert (files (w_fs w0) !! q = files (w_fs w) !! q
          ∧ (q ∈ dirs (w_fs w0) ↔ q ∈ dirs (w_fs w))) as [Hf Hd].
  { destruct Hreach as [[_ ->]|(_ & _ & _ & ->)]; [done|].
    by apply cleared_outside. }
  split.
  - rewrite steps_other_files; [done|].
    intros i c ->. apply Hq, image_file_below.
  - rewrite steps_dirs. cbn [started w_fs dirs].
    rewrite !elem_of_union, !elem_of_list_to_set, elem_of_step_folders, Hd.
    split; [|tauto].
    intros [?|(i & c & _ & ->)]; [done|].
    destruct Hq. by apply prefix_app_r.
Qed.

Lemma run_stays_in_its_folder_witness :
  ∃ w',
    generate_image_data classnames img_size 1200 folder_name
                        Examples.replacing_world = Some (Ok tt, w')
    ∧ ∀ q, ¬ folder_name `prefix_of` q →
        files (w_fs w') !! q = files (w_fs Examples.replacing_world) !! q
        ∧ (q ∈ dirs (w_fs w')
           ↔ q ∈ dirs (w_fs Examples.replacing_world)
             ∨ q ∈ ancestors folder_name).
Proof.
  apply (run_stays_in_its_folder classnames img_size 1200 folder_name
           Examples.replacing_world
           (cleared folder_name Examples.replacing_world)).
  - discriminate.
  - repeat (constructor; [by vm_compute|]). constructor.
  - unfold float_exact. lia.
  - apply replacing_world_reached.
Defined.

(** X4: with labels that are names of folders ([label_ok]) and a case
    count a float holds exactly ([float_exact]), a run that reaches the
    loop completes, and the output folder then holds only what the run
    made, whatever it held before and whatever the disk did: the
    directories at or below it are the folder and the class folders, and
    every file below it is the file of a class and a round of this run,
    holding an image that [create_image] makes for that class. *)
Theorem folder_holds_only_this_run (classes : list string)
    (size : nat * nat) (cases : Z) img_dir w w0 :
  classes ≠ [] → Forall (λ c, label_ok c = true) classes →
  float_exact cases → loop_reached img_dir w w0 →
  ∃ w',
    generate_image_data classes size cases img_dir w = Some (Ok tt, w')
    ∧ (∀ q, img_dir `prefix_of` q → q ∈ dirs (w_fs w') →
         q = img_dir ∨ ∃ c, c ∈ classes ∧ q = join img_dir c)
    ∧ (∀ q img, img_dir `prefix_of` q → files (w_fs w') !! q = Some img →
         ∃ i c, 1 ≤ i ≤ rounds classes cases ∧ c ∈ classes
                ∧ q = image_file img_dir c i
                ∧ supp (create_image size c) img).
Proof.
  intros Hc _ _ Hreach.
  destruct (generate_reached classes size cases img_dir w w0 Hc Hreach)
    as [Hfresh Hrun].
  eexists. split; [done|].
  pose proof (rounds_bound classes cases Hc) as [Hr _].
  assert (∀ q, img_dir `prefix_of` q →
               (q ∉ dirs (w_fs w0)) ∧ files (w_fs w0) !! q = None) as Hold.
  { intros q Hpre. pose proof (fresh_nothing_below _ _ q Hfresh Hpre) as Hq.
    unfold entries in Hq. rewrite not_elem_of_union, not_elem_of_dom in Hq.
    done. }
  assert (∀ i c, Make i c ∈ steps_of classes cases
                 → 1 ≤ i ≤ rounds classes cases ∧ c ∈ classes) as Hsteps.
  { intros i c. rewrite elem_of_loop_steps, Z2Nat.id by lia. intuition lia. }
  split.
  - intros q Hpre. rewrite steps_dirs. cbn [started w_fs dirs].
    rewrite !elem_of_union, !elem_of_list_to_set, elem_of_step_folders,
      elem_of_ancestors.
    intros [[Hq|[_ Hq]]|(i & c & Hin%Hsteps & ->)].
    + by apply Hold in Hq.
    + left. by apply (anti_symm prefix).
    + right. exists c. tauto.
  - intros q img Hpre [Hq|(i & c & Hin%Hsteps & -> & Hsupp)]%steps_content.
    + cbn in Hq. destruct (Hold q Hpre) as [_ Hnone]. congruence.
    + exists i, c. tauto.
Qed.

Lemma folder_holds_only_this_run_witness :
  ∃ w',
    generate_image_data classnames img_size 7 folder_name
                        Examples.replacing_world = Some (Ok tt, w')
    ∧ (∀ q, folder_name `prefix_of` q → q ∈ dirs (w_fs w') →
         q = folder_name ∨ ∃ c, c ∈ classnames ∧ q = join folder_name c)
    ∧ (∀ q img, folder_name `prefix_of` q →
         files (w_fs w') !! q = Some img →
         ∃ i c, 1 ≤ i ≤ rounds classnames 7 ∧ c ∈ classnames
                ∧ q = image_file folder_name c i
                ∧ supp (create_image img_size c) img).
Proof.
  apply (folder_holds_only_this_run classnames img_size 7 folder_name
           Examples.replacing_world
           (cleared folder_name Examples.replacing_world)).
  - discriminate.
  - repeat (constructor; [by vm_compute|]). constructor.
  - unfold float_exact. lia.
  - apply replacing_world_reached.
Defined.

(** ** How much a run does *)

Lemma step_files_of img_dir (classes : list string) (cases : Z) :
  classes ≠ [] →
  step_files img_dir (steps_of classes cases)
  = image_files img_dir classes 1 (rounds classes cases).
Proof.
  intros Hc. pose proof (rounds_bound classes cases Hc) as [Hr _].
  by rewrite step_files_loop, Z2Nat.id.
Qed.





(** X7: with labels that are names of folders ([label_ok]) and a case
    count a float holds exactly ([float_exact]), a run that reaches the
    loop completes, having printed "Generating new images..." and then
    nothing but lines of the loop ([loop_line]): progress lines, each at
    the head of a round [i] that is a multiple of 25 and showing the part
    [i * N / cases], which is at least 0 and less than [(cases - 1) /
    cases]; and reports of images of the run that were not saved.  When
    there is a round at all the first line shows the part 0. *)
Theorem loop_prints_progress_and_reports (classes : list string)
    (size : nat * nat) (cases : Z) img_dir w w0 :
  classes ≠ [] → Forall (λ c, label_ok c = true) classes →
  float_exact cases → loop_reached img_dir w w0 →
  ∃ w' new,
    generate_image_data classes size cases img_dir w = Some (Ok tt, w')
    ∧ w_stdout w' = w_stdout w0 ++ GeneratingNewImages :: new
    ∧ Forall (loop_line classes cases img_dir) new
    ∧ (1 ≤ rounds classes cases → head new = Some (Progress 0 cases)).
Proof.
  intros Hc _ _ Hreach.
  destruct (generate_reached classes size cases img_dir w w0 Hc Hreach)
    as [_ Hrun].
  pose proof (rounds_bound classes cases Hc) as [Hr Hr'].
  assert (0 < Z.of_nat (length classes)) as HN
    by (destruct classes; cbn; [done|lia]).
  assert (∀ i, Announce i ∈ steps_of classes cases → i `mod` 25 = 0 →
               loop_line classes cases img_dir
                 (Progress (i * Z.of_nat (length classes)) cases)) as Hann.
  { intros i Hi Hmod.
    apply elem_of_loop_steps_Announce in Hi. rewrite Z2Nat.id in Hi by lia.
    assert (i * Z.of_nat (length classes) < cases - 1).
    { apply ceil_div_lt; [done|]. unfold rounds in Hi. lia. }
    split; [done|]. exists i. repeat split; first [done|lia|nia]. }
  assert (∀ i c, Make i c ∈ steps_of classes cases →
                 loop_line classes cases img_dir
                   (ErrorSavingImage (image_file img_dir c i))) as Hmake.
  { intros i c Hi.
    apply elem_of_loop_steps in Hi. rewrite Z2Nat.id in Hi by lia.
    exists i, c. split; [lia|]. tauto. }
  destruct (steps_stdout classes size cases img_dir
              (loop_line classes cases img_dir) (steps_of classes cases)
              (started img_dir w0) Hann Hmake) as (new & Hout & Hnew).
  eexists _, new. split; [done|]. split.
  { rewrite Hout. cbn [started w_stdout]. by rewrite <- app_assoc. }
  split; [done|]. intros Hone.
  destruct (Z.to_nat (rounds classes cases)) as [|n] eqn:Hn; [lia|].
  cbn [loop_steps round_steps app foldl step_world] in Hout.
  unfold announce_world in Hout at 1.
  destruct (decide (0 `mod` 25 = 0)) as [_|?]; [|done].
  destruct (steps_stdout classes size cases img_dir (λ _, True)
              (map (Make (0 + 1)) classes ++ loop_steps classes (0 + 1) n)
              (World (w_fs (started img_dir w0)) (w_stdin (started img_dir w0))
                 (w_stdout (started img_dir w0)
                    ++ [Progress (0 * Z.of_nat (length classes)) cases])
                 (w_tape (started img_dir w0)) (w_pos (started img_dir w0))
                 (w_disk_ok (started img_dir w0))
                 (w_saves (started img_dir w0))))
    as (rest & Hrest & _); [done..|].
  rewrite Hrest in Hout. cbn [w_stdout] in Hout.
  rewrite <- app_assoc in Hout. apply app_inv_head in Hout.
  by rewrite <- Hout.
Qed.

Lemma loop_prints_progress_and_reports_witness :
  ∃ w' new,
    generate_image_data classnames img_size 1200 folder_name
                        Examples.replacing_world = Some (Ok tt, w')
    ∧ w_stdout w'
      = w_stdout (cleared folder_name Examples.replacing_world)
        ++ GeneratingNewImages :: new
    ∧ Forall (loop_line classnames 1200 folder_name) new
    ∧ (1 ≤ rounds classnames 1200 → head new = Some (Progress 0 1200)).
Proof.
  apply (loop_prints_progress_and_reports classnames img_size 1200
           folder_name Examples.replacing_world
           (cleared folder_name Examples.replacing_world)).
  - discriminate.
  - repeat (constructor; [by vm_compute|]). constructor.
  - unfold float_exact. lia.
  - apply replacing_world_reached.
Defined.



(** X9: with distinct class labels that are names of folders
    ([label_ok]), a case count a float holds exactly ([float_exact]) and
    a disk on which no save fails, every image of a run goes to a file of
    its own: the run makes one attempt per image, all go through, and no
    two are on the same path. *)
Theorem each_image_has_its_file (classes : list string) (size : nat * nat)
    (cases : Z) img_dir w w0 :
  classes ≠ [] → NoDup classes → Forall (λ c, label_ok c = true) classes →
  float_exact cases → loop_reached img_dir w w0 →
  (∀ n, w_disk_ok w0 n = true) →
  ∃ w' attempts,
    generate_image_data classes size cases img_dir w = Some (Ok tt, w')
    ∧ w_saves w' = w_saves w0 ++ attempts
    ∧ NoDup attempts.*1
    ∧ Forall (λ a, a.2 = true) attempts
    ∧ Z.of_nat (length attempts)
      = Z.of_nat (length classes) * rounds classes cases.
Proof.
  intros Hc Hnd _ _ Hreach Hok.
  destruct (generate_reached classes size cases img_dir w w0 Hc Hreach)
    as [_ Hrun].
  pose proof (rounds_bound classes cases Hc) as [Hr _].
  set (ps := image_files img_dir classes 1 (rounds classes cases)).
  eexists _, ((λ p, (p, true)) <$> ps). split; [done|].
  destruct (steps_saves classes size cases img_dir (steps_of classes cases)
              (started img_dir w0)) as [_ Hsaves].
  rewrite step_files_of in Hsaves by done.
  cbn [started w_saves w_disk_ok] in Hsaves.
  rewrite retry_trace_all_ok in Hsaves by done.
  split; [done|]. split; [|split].
  - assert (((λ p : path, (p, true)) <$> ps).*1 = ps) as ->.
    { induction ps as [|p l IH]; [done|]. cbn. by f_equal. }
    by apply image_files_NoDup.
  - apply Forall_fmap, Forall_true. done.
  - rewrite length_fmap. unfold ps. rewrite length_image_files. lia.
Qed.

Lemma each_image_has_its_file_witness :
  ∃ w' attempts,
    generate_image_data classnames img_size 30 folder_name
                        Examples.empty_world = Some (Ok tt, w')
    ∧ w_saves w' = w_saves Examples.empty_world ++ attempts
    ∧ NoDup attempts.*1
    ∧ Forall (λ a, a.2 = true) attempts
    ∧ Z.of_nat (length attempts)
      = Z.of_nat (length classnames) * rounds classnames 30.
Proof.
  apply (each_image_has_its_file classnames img_size 30 folder_name
           Examples.empty_world Examples.empty_world).
  - discriminate.
  - apply (bool_decide_unpack _). by vm_compute.
  - repeat (constructor; [by vm_compute|]). constructor.
  - unfold float_exact. lia.
  - left. split; [|reflexivity]. apply fresh_empty_disk. discriminate.
  - reflexivity.
Defined.

End generate_more.

(* ===================================================================== *)
(** * More on [create_image] *)
(* ===================================================================== *)

Section create_image_more.
Import Rand Py FS TransferLearning.

(** X10: the shape is not scaled to the image: whatever the size asked
    for, every vertex of the drawing has both coordinates between 10 and
    100.  So all of them fall on a canvas of more than 100 pixels each way,
    and none does on a canvas of 10 pixels or less in one direction, which
    stays blank. *)
Theorem shape_is_not_scaled (size : nat * nat) (shape : string)
    (img : image) (d : drawing) (pt : point) :
  supp (create_image size shape) img →
  drawn_of img = [d] → pt ∈ xy_of d →
  (10 ≤ pt.1 ≤ 100 ∧ 10 ≤ pt.2 ≤ 100)
  ∧ ((100 < size.1)%nat ∧ (100 < size.2)%nat → on_canvas size pt)
  ∧ ((size.1 ≤ 10)%nat ∨ (size.2 ≤ 10)%nat → ¬ on_canvas size pt).
Proof.
  intros (xy1 & xy2 & c1 & c2 & c3 & [? ?] & _ & ->)%create_image_supp.
  cbn. intros [= <-] Hpt.
  assert (10 ≤ pt.1 ≤ 100 ∧ 10 ≤ pt.2 ≤ 100) as Hin.
  { repeat case_decide; cbn in Hpt;
      repeat (apply elem_of_cons in Hpt as [->|Hpt]; [cbn; lia|]);
      by apply elem_of_nil in Hpt. }
  split; [done|]. unfold on_canvas. split; [lia|]. lia.
Qed.

Lemma shape_is_not_scaled_witness :
  (10 ≤ (60, 10).1 ≤ 100 ∧ 10 ≤ (60, 10).2 ≤ 100)
  ∧ ((100 < (224, 224).1)%nat ∧ (100 < (224, 224).2)%nat
     → on_canvas (224%nat, 224%nat) (60, 10))
  ∧ (((224, 224).1 ≤ 10)%nat ∨ ((224, 224).2 ≤ 10)%nat
     → ¬ on_canvas (224%nat, 224%nat) (60, 10)).
Proof.
  apply (shape_is_not_scaled (224%nat, 224%nat) "triangle"
           (Image (224%nat, 224%nat) (255, 255, 255)
                  [polygon [(10, 10); (60, 60); (60, 10)] (0, 100, 200)])
           (polygon [(10, 10); (60, 60); (60, 10)] (0, 100, 200))
           (60, 10)).
  - apply create_image_supp. exists 10, 60, 0, 100, 200.
    split; [lia|]. split; [lia|]. reflexivity.
  - reflexivity.
  - cbn. right. right. left.
Defined.

(** X11: the label 'circle' draws an ellipse and the label 'square' a
    rectangle, each in a bounding box whose two sides are equal, between
    20 and 90 pixels: the ellipse is a circle, the rectangle a square. *)
Theorem circle_and_square_are_regular (size : nat * nat) :
  (∀ img, supp (create_image size "circle") img →
     ∃ a b col, drawn_of img = [ellipse [(a, a); (b, b)] col]
                ∧ 20 ≤ b - a ≤ 90)
  ∧ (∀ img, supp (create_image size "square") img →
       ∃ a b col, drawn_of img = [rectangle [(a, a); (b, b)] col]
                  ∧ 20 ≤ b - a ≤ 90).
Proof.
  split; intros img (xy1 & xy2 & c1 & c2 & c3 & [? ?] & _ & ->)
    %create_image_supp; exists xy1, xy2, (c1, c2, c3); (split; [done|lia]).
Qed.

End create_image_more.

(* ===================================================================== *)
(** * More on prediction *)
(* ===================================================================== *)

Section predict_more.
Import Py TransferLearning.

Lemma first_max_unique (l : list Q) (i j : nat) (m m' : Q) :
  first_max l i m → first_max l j m' → i = j.
Proof.
  intros (Hi & Hle & Hlt) (Hj & Hle' & Hlt').
  destruct (lt_eq_lt_dec i j) as [[Hij| ->]|Hji]; [|done|].
  - pose proof (Hlt' i m Hij Hi) as H1. pose proof (Hle j m' Hj) as H2.
    destruct (Qlt_not_le _ _ H1 H2).
  - pose proof (Hlt j m' Hji Hj) as H1. pose proof (Hle' i m Hi) as H2.
    destruct (Qlt_not_le _ _ H1 H2).
Qed.

Lemma for_each_Raise {A B : Type} (f : A → result B) (e : exn) (l : list A) :
  (∀ x, x ∈ l → (∃ y, f x = Ok y) ∨ f x = Raise e) →
  (∃ x, x ∈ l ∧ f x = Raise e) →
  for_each f l = Raise e.
Proof.
  induction l as [|x l IH]; intros Hall (x0 & Hin & Hx0).
  { by apply elem_of_nil in Hin. }
  cbn. destruct (Hall x) as [[y Hy]| ->]; [left| |done].
  rewrite Hy. cbn.
  apply elem_of_cons in Hin as [->|Hin]; [congruence|].
  rewrite IH; [done| |by exists x0].
  intros z Hz. apply Hall. by right.
Qed.

(** X12: the list of labels has three entries only: as soon as the
    largest probability predicted for some image sits at index 3 or
    beyond (a classifier with more classes), [predict_image] fails with
    IndexError and returns no label at all, not even for the other
    images. *)
Theorem predict_image_fourth_class (classifier : classifier)
    (image_array : list (list Q)) (prediction : list Q) (idx : nat) (m : Q) :
  (∀ p, p ∈ predict classifier (map (map (λ v, v / 255)%Q) image_array) →
        p ≠ []) →
  prediction ∈ predict classifier (map (map (λ v, v / 255)%Q) image_array) →
  first_max prediction idx m →
  (3 ≤ idx)%nat →
  predict_image classifier image_array = Raise IndexError.
Proof.
  intros Hne Hin Hmax Hidx. unfold predict_image.
  apply for_each_Raise.
  - intros p Hp.
    destruct (np_argmax_first_max p (Hne p Hp)) as (i & mp & -> & _).
    unfold mbind, result_bind, list_get.
    destruct (_ !! i); [left; eauto|by right].
  - exists prediction. split; [done|].
    destruct (np_argmax_first_max prediction (Hne _ Hin))
      as (i & mp & -> & Hmax').
    rewrite (first_max_unique _ _ _ _ _ Hmax' Hmax).
    unfold mbind, result_bind, list_get.
    by rewrite lookup_ge_None_2 by (cbn; lia).
Qed.

Lemma predict_image_fourth_class_witness :
  predict_image Examples.four_way [[0; 255]; [128; 64]]%Q = Raise IndexError.
Proof.
  apply (predict_image_fourth_class Examples.four_way
           [[0; 255]; [128; 64]]%Q [1 # 10; 1 # 10; 2 # 10; 6 # 10]%Q
           3%nat (6 # 10)%Q).
  - intros p (? & -> & _)%list_elem_of_fmap. done.
  - cbn. left.
  - split; [reflexivity|]. split.
    + intros [|[|[|[|k]]]] y; cbn; intros H; simplify_eq; by vm_compute.
    + intros [|[|[|k]]] y Hk; cbn; intros H; simplify_eq; try lia;
        by vm_compute.
  - lia.
Defined.

End predict_more.

(* ===================================================================== *)
(** * More on the segmentation dataset *)
(* ===================================================================== *)

Section dataset_more.
Import Rand Py FS UNet UNet.PlaneDataSet.

(** X13: a mask without an image goes unnoticed when the dataset is
    built and is counted in its length, but every access to it fails
    with FileNotFoundError, whatever the draw. *)
Theorem getitem_mask_without_image (convert_L : Q → Q) (fs : filesystem gray)
    (image_path mask_path : path) (self : t) (index : nat) (name : string) :
  __init__ fs image_path mask_path = Ok self →
  filenames self !! index = Some name →
  path_exists fs (join image_path name) = false →
  (index < __len__ self)%nat
  ∧ ∀ out, supp (__getitem__ convert_L fs self index) out →
           out = Raise FileNotFoundError.
Proof.
  intros Hinit Hname Hex.
  split; [apply (lookup_lt_Some _ _ _ Hname)|].
  assert (PlaneDataSet.image_path self = image_path) as Hpath.
  { unfold __init__, mbind, result_bind, mret, result_ret in Hinit.
    destruct (listdir mask_path fs); by simplify_eq. }
  apply orb_false_iff in Hex as [Hdir Hfile%isfile_false].
  intros out (rand & _ & ->).
  unfold getitem_with, mbind, result_bind, list_get, imread, read_file.
  by rewrite Hname, Hpath, Hfile, Hdir.
Qed.

Lemma getitem_mask_without_image_witness :
  (0 < __len__ (Make ["image"] ["mask"] ["p3.png"; "p1.png"]))%nat
  ∧ ∀ out,
      supp (__getitem__ (λ v, v) Examples.mismatched_fs
              (Make ["image"] ["mask"] ["p3.png"; "p1.png"]) 0) out →
      out = Raise FileNotFoundError.
Proof.
  apply (getitem_mask_without_image (λ v, v) Examples.mismatched_fs
           ["image"] ["mask"] (Make ["image"] ["mask"] ["p3.png"; "p1.png"])
           0 "p3.png"); reflexivity.
Defined.

Lemma flipped_row_lengths (convert_L : Q → Q) (a : gray) :
  map length (flipped convert_L a) = map length a.
Proof.
  unfold flipped, FLIP_LEFT_RIGHT. rewrite !map_map. apply map_ext.
  intros row. by rewrite length_map, length_reverse.
Qed.

Lemma divide_255_row_lengths (a : gray) :
  map length (divide_255 a) = map length a.
Proof.
  unfold divide_255. rewrite map_map. apply map_ext.
  intros row. by rewrite length_map.
Qed.

(** X14: when the image and the mask of an index are on the disk, every
    access succeeds and returns two tensors of one channel that keep the
    shape of the files: as many rows, each as long, flipped or not. *)
Theorem getitem_keeps_shape (convert_L : Q → Q) (fs : filesystem gray)
    (self : t) (index : nat) (name : string) (image mask : gray) :
  filenames self !! index = Some name →
  files fs !! join (image_path self) name = Some image →
  files fs !! join (mask_path self) name = Some mask →
  ∀ out, supp (__getitem__ convert_L fs self index) out →
    ∃ image' mask',
      out = Ok ([image'], [mask'])
      ∧ map length image' = map length image
      ∧ map length mask' = map length mask.
Proof.
  intros Hname Himage Hmask out (rand & _ & ->).
  rewrite getitem_with_paired.
  unfold paired_access, mbind, result_bind, list_get, imread, read_file.
  rewrite Hname, Himage, Hmask. cbn.
  eexists _, _. split; [reflexivity|].
  destruct (bool_decide (rand > 1));
    by rewrite ?flipped_row_lengths, !divide_255_row_lengths.
Qed.

Lemma getitem_keeps_shape_witness :
  ∃ image' mask',
    getitem_with (λ v, v) Examples.planes_fs Examples.planes 0 2
    = Ok ([image'], [mask'])
    ∧ map length image' = map length [[0; 255]; [51; 102]]%Q
    ∧ map length mask' = map length [[0; 255]; [0; 255]]%Q.
Proof.
  apply (getitem_keeps_shape (λ v, v) Examples.planes_fs Examples.planes 0
           "p1.png").
  - reflexivity.
  - reflexivity.
  - reflexivity.
  - exists 2. split; [lia|reflexivity].
Defined.

End dataset_more.

(* ===================================================================== *)
(** * More on the training loop *)
(* ===================================================================== *)

Section train_more.
Import Rand Py UNet.
Context {net datum target output : Type}.
Variable forward : net → list datum → output.
Variable loss_criteria : output → list target → Q.
Variable backward_step : net → list datum → list target → net.




End train_more.


(* ===================================================================== *)
(** * The figure of the training images *)
(* ===================================================================== *)

Section figure_facts.
Import Py FS UNet.

Lemma isfile_read (fs : filesystem gray) (p : path) :
  isfile fs p = true → ∃ a, imread fs p = Ok a.
Proof.
  unfold isfile, imread, read_file. intros H.
  apply bool_decide_eq_true_1 in H as [a Ha]. rewrite Ha. by exists a.
Qed.

(** The loop adds three subplots per file, numbered on from [cell]. *)
Lemma show_files_ok (fs : filesystem gray) (image_dir mask_dir : path)
    (rows : nat) (files : list string) :
  (∀ f, f ∈ files →
        isfile fs (join image_dir f) = true
        ∧ isfile fs (join mask_dir f) = true) →
  ∀ (cell : nat) (fig : list subplot),
  ∃ fig',
    show_files fs image_dir mask_dir rows cell fig files
    = Ok ((cell + 3 * length files)%nat, fig ++ fig')
    ∧ length fig' = (3 * length files)%nat
    ∧ ∀ i f, files !! i = Some f →
        ∃ img mask,
          imread fs (join image_dir f) = Ok img
          ∧ imread fs (join mask_dir f) = Ok mask
          ∧ fig' !! (3 * i)%nat
            = Some (Subplot rows 3 (cell + 3 * i + 1) (Imshow img))
          ∧ fig' !! (3 * i + 1)%nat
            = Some (Subplot rows 3 (cell + 3 * i + 2) (Imshow mask))
          ∧ fig' !! (3 * i + 2)%nat
            = Some (Subplot rows 3 (cell + 3 * i + 3) (Overlay img mask)).
Proof.
  induction files as [|file files IH]; intros Hfiles cell fig.
  { exists []. cbn. rewrite app_nil_r, Nat.add_0_r. by repeat split. }
  destruct (Hfiles file) as [Himg Hmask]; [left|].
  destruct (isfile_read _ _ Himg) as [img Hi].
  destruct (isfile_read _ _ Hmask) as [mask Hm].
  cbn [show_files]. unfold show_file. cbv zeta.
  rewrite Hi. cbn [mbind result_bind]. rewrite Hm.
  cbn [mbind result_bind mret result_ret].
  edestruct IH as (fig' & -> & Hlen & Hat).
  { intros f Hf. apply Hfiles. by right. }
  exists ([Subplot rows 3 (cell + 1) (Imshow img);
           Subplot rows 3 (cell + 1 + 1) (Imshow mask);
           Subplot rows 3 (cell + 1 + 1 + 1) (Overlay img mask)] ++ fig').
  split.
  { replace (cell + 1 + 1 + 1 + 3 * length files)%nat
      with (cell + 3 * length (file :: files))%nat by (cbn [length]; lia).
    by rewrite <- !app_assoc. }
  split; [cbn; lia|].
  intros [|i] f Hf.
  - cbn in Hf. injection Hf as <-. exists img, mask.
    rewrite Nat.mul_0_r, !Nat.add_0_r. cbn.
    repeat split; try done; do 2 f_equal; lia.
  - cbn in Hf. destruct (Hat i f Hf) as (img' & mask' & ? & ? & H0 & H1 & H2).
    exists img', mask'. split; [done|]. split; [done|].
    assert (Hshift : ∀ (a b c : subplot) l k,
               ([a; b; c] ++ l) !! (3 + k)%nat = l !! k) by done.
    split; [|split].
    + replace (3 * S i)%nat with (3 + 3 * i)%nat by lia.
      rewrite Hshift, H0. do 2 f_equal. lia.
    + replace (3 * S i + 1)%nat with (3 + (3 * i + 1))%nat by lia.
      rewrite Hshift, H1. do 2 f_equal. lia.
    + replace (3 * S i + 2)%nat with (3 + (3 * i + 2))%nat by lia.
      rewrite Hshift, H2. do 2 f_equal. lia.
Qed.

(** X16: when every entry of the image folder is a file that has a mask
    of the same name, the cell succeeds and fills a grid of one row per
    file and three columns, from its first to its last position: the row
    of the file listed at place [i] (from 0) shows the image, the mask
    and the mask over the image. *)
Theorem training_images_fill_the_grid (fs : filesystem gray)
    (image_dir mask_dir : path) (files : list string) :
  listdir image_dir fs = Ok files →
  (∀ f, f ∈ files →
        isfile fs (join image_dir f) = true
        ∧ isfile fs (join mask_dir f) = true) →
  ∃ fig,
    show_training_images fs image_dir mask_dir = Ok fig
    ∧ length fig = (3 * length files)%nat
    ∧ ∀ i f, files !! i = Some f →
        ∃ img mask,
          imread fs (join image_dir f) = Ok img
          ∧ imread fs (join mask_dir f) = Ok mask
          ∧ fig !! (3 * i)%nat
            = Some (Subplot (length files) 3 (3 * i + 1) (Imshow img))
          ∧ fig !! (3 * i + 1)%nat
            = Some (Subplot (length files) 3 (3 * i + 2) (Imshow mask))
          ∧ fig !! (3 * i + 2)%nat
            = Some (Subplot (length files) 3 (3 * i + 3) (Overlay img mask)).
Proof.
  intros Hlist Hfiles. unfold show_training_images. rewrite Hlist. cbn.
  destruct (show_files_ok fs image_dir mask_dir (length files) files
              Hfiles 0%nat []) as (fig & -> & Hlen & Hat).
  exists fig. cbn. split; [done|]. split; [done|]. exact Hat.
Qed.

Lemma training_images_fill_the_grid_witness :
  ∃ fig,
    show_training_images Examples.planes_fs ["image"] ["mask"] = Ok fig
    ∧ length fig = 6%nat
    ∧ ∀ i f, ["p2.png"; "p1.png"] !! i = Some f →
        ∃ img mask,
          imread Examples.planes_fs (join ["image"] f) = Ok img
          ∧ imread Examples.planes_fs (join ["mask"] f) = Ok mask
          ∧ fig !! (3 * i)%nat
            = Some (Subplot 2 3 (3 * i + 1) (Imshow img))
          ∧ fig !! (3 * i + 1)%nat
            = Some (Subplot 2 3 (3 * i + 2) (Imshow mask))
          ∧ fig !! (3 * i + 2)%nat
            = Some (Subplot 2 3 (3 * i + 3) (Overlay img mask)).
Proof.
  apply (training_images_fill_the_grid Examples.planes_fs ["image"] ["mask"]
           ["p2.png"; "p1.png"]).
  - by vm_compute.
  - intros f Hf. apply list_elem_of_In in Hf. cbn in Hf.
    destruct Hf as [ <- | [ <- | [] ] ]; by vm_compute.
Defined.

End figure_facts.
